(** * generate_variants.py: a shallow embedding and its verified properties

    The development follows [src/generate_variants.py]:
    - [Text]: the [str] and [re] operations the parser is written with;
    - [Parser]: [parse_variants];
    - [Runtime]: the effects of the program (random draws, the external
      generation service, the clock, exceptions) as a state and error monad
      over an abstract world;
    - [Chunk]: [get_random_prompt_template], [generate_variant_chunk],
      [process_single_variant];
    - [Orchestrator]: [process_prompt].

    Texts are byte strings holding the UTF-8 encoding of the Python [str]
    values.  Whitespace and line boundaries are the ASCII ones of CPython
    ([Py_UNICODE_ISSPACE] and [Py_UNICODE_ISLINEBREAK] below code point
    128); the non-ASCII Unicode spaces and line separators are outside the
    model. *)

From Stdlib Require Import ZArith Lia Ascii String.
From Equations Require Import Equations.
From stdpp Require Import gmap strings list fin_maps pretty.

(* ===================================================================== *)
(** ** Text primitives                                                    *)
(* ===================================================================== *)

Module Text.

(** Line feed, used to write the [\n] of the source literals. *)
Definition LF : string := String (ascii_of_nat 10%nat) "".

(** [str.isspace] on one ASCII character: TAB, LF, VT, FF, CR, the four
    separators FS, GS, RS, US and the space. *)
Definition isspace (c : ascii) : bool :=
  let n := nat_of_ascii c in
  (((9 <=? n) && (n <=? 13)) || ((28 <=? n) && (n <=? 31)) || (n =? 32))%nat.

(** Line boundaries of [str.splitlines]: LF, VT, FF, CR, FS, GS, RS. *)
Definition islinebreak (c : ascii) : bool :=
  let n := nat_of_ascii c in
  (((10 <=? n) && (n <=? 13)) || ((28 <=? n) && (n <=? 30)))%nat.

(** [s.startswith(p)]. *)
Fixpoint startswith (p s : string) : bool :=
  match p, s with
  | "", _ => true
  | String a p', String b s' => if Ascii.eqb a b then startswith p' s' else false
  | String _ _, "" => false
  end.

(** [needle in s]. *)
Fixpoint contains (needle s : string) : bool :=
  startswith needle s ||
  match s with
  | "" => false
  | String _ s' => contains needle s'
  end.

(** [s[n:]] for [0 <= n]. *)
Fixpoint drop (n : nat) (s : string) : string :=
  match n, s with
  | O, _ => s
  | S n', String _ s' => drop n' s'
  | S _, "" => ""
  end.

Fixpoint lstrip (s : string) : string :=
  match s with
  | String c s' => if isspace c then lstrip s' else s
  | "" => ""
  end.

Fixpoint rstrip (s : string) : string :=
  match s with
  | String c s' =>
      match rstrip s' with
      | "" => if isspace c then "" else String c ""
      | r => String c r
      end
  | "" => ""
  end.

(** [s.strip()]. *)
Definition strip (s : string) : string := rstrip (lstrip s).

(** [s.splitlines()]: [cur] is the line being read, in reverse.  A CR
    directly followed by LF is one boundary; a final boundary opens no
    empty last line. *)
Fixpoint splitlines_from (cur : string) (s : string) : list string :=
  match s with
  | "" => match cur with "" => [] | _ => [String.rev cur] end
  | String c s' =>
      if islinebreak c then
        String.rev cur ::
          match s' with
          | String d s'' =>
              if ((nat_of_ascii c =? 13) && (nat_of_ascii d =? 10))%nat
              then splitlines_from "" s''
              else splitlines_from "" s'
          | "" => splitlines_from "" s'
          end
      else splitlines_from (String c cur) s'
  end.

Definition splitlines (s : string) : list string := splitlines_from "" s.

(** The truth value of an optional text: [None] and [""] are false. *)
Definition truthy (o : option string) : bool :=
  match o with
  | Some (String _ _) => true
  | _ => false
  end.

(** *** Regular expressions of the parser, as backtracking matchers.

    A matcher takes the rest of the input and a continuation for what
    follows it in the pattern; [None] makes the caller try its next
    alternative, as the backtracking engine of [re] does. *)

(** Greedy [\s*]: the longest run of spaces first, then shorter ones. *)
Fixpoint re_spaces {A} (s : string) (k : string -> option A) : option A :=
  match s with
  | String c s' =>
      if isspace c then
        match re_spaces s' k with
        | Some r => Some r
        | None => k s
        end
      else k s
  | "" => k s
  end.

(** Lazy group [(.*?)] under DOTALL: the shortest text first.  [seen] is
    the group so far, in reverse. *)
Fixpoint re_lazy_any {A} (seen : string) (s : string)
    (k : string -> string -> option A) : option A :=
  match k (String.rev seen) s with
  | Some r => Some r
  | None =>
      match s with
      | String c s' => re_lazy_any (String c seen) s' k
      | "" => None
      end
  end.

(** [Reasoning:\s*(.*?)\s*Variant:] anchored at the start of [s];
    the result is group 1. *)
Definition reasoning_match_at (s : string) : option string :=
  if startswith "Reasoning:" s then
    re_spaces (drop 10%nat s) (fun s1 =>
      re_lazy_any "" s1 (fun g s2 =>
        re_spaces s2 (fun s3 =>
          if startswith "Variant:" s3 then Some g else None)))
  else None.

(** [re.search(r"Reasoning:\s*(.*?)\s*Variant:", s, re.DOTALL)]:
    group 1 of the leftmost match. *)
Fixpoint reasoning_search (s : string) : option string :=
  match reasoning_match_at s with
  | Some g => Some g
  | None =>
      match s with
      | String _ s' => reasoning_search s'
      | "" => None
      end
  end.

(** The text after the [\s*] that follows a delimiter. *)
Definition after_delimiter (s : string) : string := lstrip (drop 4%nat s).

(** [re.split(r"====\s*", s)]: [cur] is the piece being read, in
    reverse.  Matches are taken leftmost, each with all the spaces that
    follow it; the text after the last match is the last piece. *)
Equations? re_split_from (cur : string) (s : string) : list string
  by wf (String.length s) lt :=
re_split_from cur "" := [String.rev cur];
re_split_from cur (String c s') with startswith "====" (String c s') := {
  | true => String.rev cur :: re_split_from "" (after_delimiter (String c s'))
  | false => re_split_from (String c cur) s' }.
Proof.
  - assert (forall t, String.length (lstrip t) <= String.length t)%nat as Hstrip.
    { induction t as [|a t IH]; simpl; [lia|].
      destruct (isspace a); simpl; lia. }
    assert (forall n t, String.length (drop n t) <= String.length t)%nat as Hdrop.
    { induction n as [|n IH]; intros [|a t]; simpl; try lia.
      specialize (IH t); lia. }
    unfold after_delimiter.
    pose proof (Hstrip (drop 4 (String c s'))) as H1.
    pose proof (Hdrop 3%nat s') as H2.
    change (drop 4 (String c s')) with (drop 3 s') in H1.
    change (drop 4 (String c s')) with (drop 3 s').
    change (String.length (String c s')) with (S (String.length s')). lia.
  - simpl. lia.
Qed.

(** *** Helpers to state properties of texts *)


Definition first_char (s : string) : option ascii :=
  match s with
  | "" => None
  | String c _ => Some c
  end.



Definition re_split (s : string) : list string := re_split_from "" s.

End Text.

(* ===================================================================== *)
(** ** Data model                                                         *)
(* ===================================================================== *)

(** The dictionary built by the parser for one block, with the key added
    by the chunk generator.  A field is [None] when its key is missing. *)
Record ParsedBlock := mkParsedBlock {
  pb_reasoning : option string;
  pb_variant : option string;
  pb_transformations_used : option (list string)
}.

(** The dictionary built by [process_single_variant].  [reasoning] is
    [None] for Python's [None]; [evaluation] is always [None]. *)
Record VariantRecord := mkVariantRecord {
  original : string;
  requested_difficulty : string;
  variant : string;
  reasoning : option string;
  transformations_used : list string;
  evaluation : option string;
  timestamp : string
}.

(* ===================================================================== *)
(** ** Response parser                                                    *)
(* ===================================================================== *)

Module Parser.
Import Text.

(** The [for line in block.splitlines()] loop: the text after the marker
    on the first line that, stripped, starts with it; [None] when the
    loop ends without [break]. *)
Fixpoint variant_line (lines : list string) : option string :=
  match lines with
  | [] => None
  | line :: rest =>
      if startswith "Variant:" (strip line)
      then Some (strip (drop (String.length "Variant:") (strip line)))
      else variant_line rest
  end.

(** The value bound to [reasoning_text]. *)
Definition reasoning_of (block : string) : string :=
  match reasoning_search block with
  | Some g => strip g
  | None => ""
  end.

(** One iteration of [for block in blocks], on the list built so far. *)
Definition parse_block (variants : list ParsedBlock) (block : string)
    : list ParsedBlock :=
  if contains "Variant:" block && contains "Reasoning:" block then
    let reasoning_text := reasoning_of block in
    let variant_expr := variant_line (splitlines block) in
    if truthy variant_expr
    then variants ++ [mkParsedBlock (Some reasoning_text) variant_expr None]
    else variants
  else variants.

Definition parse_variants (text : string) : list ParsedBlock :=
  foldl parse_block [] (re_split text).

(** *** Helpers to state properties of the parser *)



(** The text of the parsing example of the specification. *)
Definition example_text : string :=
  String.concat "" [
    "===="; LF; "Variant 1:"; LF; "Reasoning: foo"; LF; "Variant: bar"; LF; "===="].

End Parser.

(* ===================================================================== *)
(** ** Effects: random draws, the generation service, the clock           *)
(* ===================================================================== *)

Module Runtime.

(** The exceptions the program can meet.  [ServiceError] stands for
    whatever the external call raises (network, quota, model id). *)
Inductive exn :=
| KeyError (key : string)
| IndexError
| ValueError
| ServiceError (what : string).

(** The sampling temperatures [0.8, 1.0, 1.2, 1.4]. *)
Inductive temperature := T0_8 | T1_0 | T1_2 | T1_4.

(** What running a computation from a world gives: a value and the next
    world, or an exception. *)
Inductive outcome (W A : Type) :=
| Returns (a : A) (w : W)
| Raises (e : exn).
Arguments Returns {W A} a w.
Arguments Raises {W A} e.

(** The collaborators of the program.  [generate_text] is
    [utils.inference.generate_text(model, prompt, temperature=...)];
    [utcnow_isoformat] is [datetime.utcnow().isoformat()];
    [rand_raw] is the entropy source behind the [random] module. *)
Class Env := {
  World : Type;
  rand_raw : World -> nat * World;
  generate_text : string -> string -> temperature -> World -> outcome World string;
  utcnow_isoformat : World -> string * World
}.

Definition M `{Env} (A : Type) : Type := World -> outcome World A.

Definition ret `{Env} {A} (a : A) : M A := fun w => Returns a w.

Definition bind `{Env} {A B} (m : M A) (k : A -> M B) : M B :=
  fun w =>
    match m w with
    | Returns a w' => k a w'
    | Raises e => Raises e
    end.

Definition raise `{Env} {A} (e : exn) : M A := fun _ => Raises e.

Declare Scope py_scope.
Delimit Scope py_scope with py.
Notation "x <- m ;; k" := (bind m (fun x => k))
  (at level 100, m at next level, right associativity) : py_scope.
Local Open Scope py_scope.

Section operations.
Context `{Env}.

(** [Random._randbelow(n)]: a draw in [range(n)]. *)
Definition randbelow (n : nat) : M nat :=
  fun w =>
    let (r, w') := rand_raw w in
    Returns (match n with O => O | S _ => r mod n end) w'.

(** [random.choice(seq)]. *)
Definition choice {A} (seq : list A) : M A :=
  match seq with
  | [] => raise IndexError
  | _ :: _ =>
      i <- randbelow (length seq) ;;
      match seq !! i with
      | Some x => ret x
      | None => raise IndexError
      end
  end.

(** The selection loop of [random.sample] on a pool copied from the
    population: [for i in range(k)], with [left = n - i] places still
    in play. *)
Fixpoint sample_loop {A} (k : nat) (left : nat) (pool : list A) : M (list A) :=
  match k with
  | O => ret []
  | S k' =>
      j <- randbelow left ;;
      match pool !! j, pool !! (left - 1)%nat with
      | Some x, Some y =>
          rest <- sample_loop k' (left - 1)%nat (<[j := y]> pool) ;;
          ret (x :: rest)
      | _, _ => raise IndexError
      end
  end.

(** [random.sample(population, k)] for a population of at most 21
    items, where CPython selects from a pool (the hint pools have at
    most 5). *)
Definition sample {A} (population : list A) (k : nat) : M (list A) :=
  if (k <=? length population)%nat
  then sample_loop k (length population) population
  else raise ValueError.

(** [await asyncio.gather] of a list of tasks: the results in the order of the
    tasks; the first exception is the exception of the whole.  The
    tasks take the world in submission order. *)
Fixpoint gather {A} (tasks : list (M A)) : M (list A) :=
  match tasks with
  | [] => ret []
  | t :: ts =>
      x <- t ;;
      xs <- gather ts ;;
      ret (x :: xs)
  end.

(** A [for] loop that updates [acc] and may raise. *)
Fixpoint for_each {A S} (body : S -> A -> M S) (items : list A) (acc : S) : M S :=
  match items with
  | [] => ret acc
  | x :: rest =>
      acc' <- body acc x ;;
      for_each body rest acc'
  end.

(** The clock read of [datetime.utcnow().isoformat()]. *)
Definition now_isoformat : M string :=
  fun w => let (t, w') := utcnow_isoformat w in Returns t w'.

End operations.

End Runtime.

(* ===================================================================== *)
(** ** Request composer, record builder and chunk generator               *)
(* ===================================================================== *)

Module Chunk.
Import Text Parser Runtime.
Local Open Scope py_scope.

Definition MODEL : string := "deepseek-chat".

Definition TRANSFORMATIONS_BY_DIFFICULTY : gmap string (list string) :=
  list_to_map [
    ("easier", [
      "simplify the language";
      "reduce the complexity";
      "remove unnecessary details";
      "simplify the instructions"]);
    ("equivalent", [
      "make minor adjustments";
      "change wording slightly";
      "rephrase without altering meaning";
      "substitute synonyms"]);
    ("harder", [
      "add additional details";
      "increase complexity";
      "introduce more technical language";
      "expand the prompt";
      "add challenging constraints"])
  ].

Definition PERSONAS : list string := [
  "an expert in the field";
  "a creative thinker";
  "a seasoned professional";
  "an enthusiastic beginner";
  "a visionary strategist";
  "a technical specialist";
  "a pragmatic problem-solver"
].

(** [str.lower] on ASCII letters; the bytes of other characters are
    kept, and no lower-cased non-ASCII character is a letter of the three
    difficulty labels. *)
Definition lower_char (c : ascii) : ascii :=
  let n := nat_of_ascii c in
  if ((65 <=? n) && (n <=? 90))%nat then ascii_of_nat (n + 32) else c.

Fixpoint lower (s : string) : string :=
  match s with
  | "" => ""
  | String c s' => String (lower_char c) (lower s')
  end.

(** [sep.join(items)]. *)
Definition join (sep : string) (items : list string) : string :=
  String.concat sep items.

(** The en dash of the first template, in UTF-8. *)
Definition EN_DASH : string :=
  String (ascii_of_nat 226) (String (ascii_of_nat 128) (String (ascii_of_nat 147) "")).

Definition template_options (prompt difficulty : string) (count : Z)
    (transforms_text personas_str : string) : list string := [
  String.concat "" [
    "Assume you can adopt various personas such as "; personas_str; "."; LF; LF;
    "Given the prompt/task: "; prompt; LF;
    "Your task is to generate "; pretty count;
    " creative variant(s) that are "; difficulty; " than the original."; LF; LF;
    "Important constraints:"; LF;
    "- Maintain the original intent of the prompt."; LF;
    "- Avoid introducing arbitrary or irrelevant changes."; LF;
    "- All modifications should be specific and meaningful."; LF; LF;
    "Follow these steps:"; LF;
    "1. Analyze the original prompt deeply, looking for hidden simplifications and opportunities for improvement."; LF;
    "2. Think outside conventional approaches "; EN_DASH;
    " consider alternative phrasings, simplifications, or restructuring."; LF;
    "3. Draw inspiration from various fields. Some ideas: "; transforms_text; LF;
    "4. Provide a detailed explanation of your creative reasoning process."; LF;
    "5. Present each variant in the following exact format:"; LF;
    "===="; LF;
    "Variant <number>:"; LF;
    "Reasoning: <your creative chain-of-thought explanation>"; LF;
    "Variant: <the new prompt variant>"; LF;
    "===="; LF; LF;
    "Generate truly novel variants that might surprise even experienced practitioners."
  ];
  String.concat "" [
    "Channel the creative spirit of professionals like "; personas_str; "."; LF; LF;
    "For this task: "; prompt; LF;
    "Create "; pretty count; " variant(s) that are "; difficulty;
    " than the original prompt."; LF; LF;
    "Key points:"; LF;
    "- Do not change the core intent of the prompt."; LF;
    "- All modifications must be specific and justified."; LF; LF;
    "Steps:"; LF;
    "1. Examine the prompt carefully and identify aspects that can be simplified or modified."; LF;
    "2. Experiment with ideas such as: "; transforms_text; LF;
    "3. Explain your reasoning in detail."; LF;
    "4. Provide your answer in the following exact format:"; LF;
    "===="; LF;
    "Variant <number>:"; LF;
    "Reasoning: <your creative chain-of-thought explanation>"; LF;
    "Variant: <the new prompt variant>"; LF;
    "===="; LF; LF;
    "Aim to create variants that reveal new perspectives on the original prompt."
  ]
].

Section with_env.
Context `{Env}.

Definition get_random_prompt_template (prompt difficulty : string) (count : Z)
    (transforms_text personas_str : string) : M string :=
  choice (template_options prompt difficulty count transforms_text personas_str).

Definition process_single_variant (original_prompt difficulty : string)
    (variant_data : ParsedBlock) : M (option VariantRecord) :=
  let variant_prompt := pb_variant variant_data in
  match variant_prompt with
  | Some (String _ _ as text) =>
      now <- now_isoformat ;;
      ret (Some {|
        original := original_prompt;
        requested_difficulty := difficulty;
        variant := text;
        reasoning := pb_reasoning variant_data;
        transformations_used := default [] (pb_transformations_used variant_data);
        evaluation := None;
        timestamp := now +:+ "Z"
      |})
  | _ => ret None
  end.

(** The hint pool of a difficulty:
    [TRANSFORMATIONS_BY_DIFFICULTY.get(difficulty.lower(), [...])]. *)
Definition transformations_for (difficulty : string) : list string :=
  default ["make a small change"] (TRANSFORMATIONS_BY_DIFFICULTY !! lower difficulty).

(** The draw of [num_choices] and of [chosen_transforms]. *)
Definition choose_transforms (difficulty : string) : M (list string) :=
  let transformations := transformations_for difficulty in
  num_choices <- choice (seq 3 4) ;;
  sample transformations (num_choices `min` length transformations).

(** [generate_variant_chunk] up to the service call: the hints drawn,
    the instruction text and the temperature. *)
Definition compose_request (prompt difficulty : string) (count : Z)
    : M (list string * string * temperature) :=
  chosen_transforms <- choose_transforms difficulty ;;
  let transforms_text := join ", " chosen_transforms in
  let personas_str := join ", " PERSONAS in
  prompt_variant <-
    get_random_prompt_template prompt difficulty count transforms_text personas_str ;;
  temperature_choice <- choice [T0_8; T1_0; T1_2; T1_4] ;;
  ret (chosen_transforms, prompt_variant, temperature_choice).

(** [generate_variant_chunk] from the reply on. *)
Definition records_of_response (prompt difficulty : string)
    (chosen_transforms : list string) (response_text : string)
    : M (list VariantRecord) :=
  let parsed_variants :=
    (fun v => mkParsedBlock (pb_reasoning v) (pb_variant v) (Some chosen_transforms))
      <$> parse_variants response_text in
  let tasks := process_single_variant prompt difficulty <$> parsed_variants in
  processed_variants <- gather tasks ;;
  ret (omap id processed_variants).

Definition generate_variant_chunk (prompt difficulty : string) (count : Z)
    : M (list VariantRecord) :=
  request <- compose_request prompt difficulty count ;;
  let chosen_transforms := request.1.1 in
  let prompt_variant := request.1.2 in
  let temperature_choice := request.2 in
  response_text <- generate_text MODEL prompt_variant temperature_choice ;;
  records_of_response prompt difficulty chosen_transforms response_text.

End with_env.

End Chunk.

(* ===================================================================== *)
(** ** Orchestrator                                                       *)
(* ===================================================================== *)

Module Orchestrator.
Import Text Parser Runtime Chunk.
Local Open Scope py_scope.
Local Open Scope Z_scope.

Definition NUM_VARIANTS : Z := 3.
Definition RECURSION_DEPTH : Z := 0.
Definition buffer_multiplier : Z := 3.

(** [math.ceil(a / b)] on integers, for [0 < b] and quotients that a
    float holds exactly. *)
Definition ceil_div (a b : Z) : Z := - ((- a) `div` b).

(** [range(n)]. *)
Definition py_range (n : Z) : list Z := Z.of_nat <$> seq 0 (Z.to_nat n).

(** [l[:n]]; a negative [n] counts from the end. *)
Definition slice_to {A} (l : list A) (n : Z) : list A :=
  if n <? 0 then take (Z.to_nat (Z.of_nat (length l) + n)) l
  else take (Z.to_nat n) l.

(** The [count] of each chunk of one difficulty, in submission order. *)
Definition chunk_counts (total_to_request : Z) : list Z :=
  let num_chunks := ceil_div total_to_request 10 in
  (fun i => if i <? num_chunks - 1 then 10
            else total_to_request - 10 * (num_chunks - 1))
    <$> py_range num_chunks.

(** The [tasks] list, without the coroutines: difficulty and count. *)
Definition plan_tasks (difficulties : list string) (num_variants : Z)
    : list (string * Z) :=
  difficulties ≫= fun difficulty =>
    let total_to_request := num_variants * buffer_multiplier in
    pair difficulty <$> chunk_counts total_to_request.

(** [seen_variants] and [difficulty_dict]. *)
Record MergeState := mkMergeState {
  seen_variants : gset string;
  difficulty_dict : gmap string (list VariantRecord)
}.

Section with_env.
Context `{Env}.

(** The body of the inner merge loop, for one record of a chunk. *)
Definition accept (difficulty : string) (st : MergeState) (v : VariantRecord)
    : M MergeState :=
  let variant_expr := variant v in
  if truthy (Some variant_expr) && bool_decide (variant_expr ∉ seen_variants st) then
    let seen := {[variant_expr]} ∪ seen_variants st in
    match difficulty_dict st !! difficulty with
    | Some accepted =>
        ret (mkMergeState seen (<[difficulty := accepted ++ [v]]> (difficulty_dict st)))
    | None => raise (KeyError difficulty)
    end
  else ret st.

(** The body of the outer merge loop, for one enumerated task. *)
Definition merge_chunk (chunk_results : list (list VariantRecord))
    (st : MergeState) (task : nat * (string * Z)) : M MergeState :=
  match chunk_results !! task.1 with
  | Some chunk => for_each (accept task.2.1) chunk st
  | None => raise IndexError
  end.

Definition merge (tasks : list (string * Z))
    (chunk_results : list (list VariantRecord)) (st : MergeState) : M MergeState :=
  for_each (merge_chunk chunk_results) (imap pair tasks) st.

(** The body of the loop that fills [final_results]. *)
Definition collect (dict : gmap string (list VariantRecord)) (num_variants : Z)
    (final_results : list VariantRecord) (difficulty : string)
    : M (list VariantRecord) :=
  match dict !! difficulty with
  | Some accepted => ret (final_results ++ slice_to accepted num_variants)
  | None => raise (KeyError difficulty)
  end.

(** [await asyncio.gather] over the coroutines of [tasks]. *)
Definition gather_chunks (base_prompt : string) (tasks : list (string * Z))
    : M (list (list VariantRecord)) :=
  gather ((fun t => generate_variant_chunk base_prompt t.1 t.2) <$> tasks).

(** [process_prompt] up to the recursion test. *)
Definition top_level (base_prompt : string) (difficulties : list string)
    (num_variants : Z) : M (list VariantRecord) :=
  let tasks := plan_tasks difficulties num_variants in
  chunk_results <- gather_chunks base_prompt tasks ;;
  let empty_dict : gmap string (list VariantRecord) :=
    list_to_map ((fun d => (d, [])) <$> difficulties) in
  st <- merge tasks chunk_results (mkMergeState ∅ empty_dict) ;;
  for_each (collect (difficulty_dict st) num_variants) difficulties [].

(** [process_prompt], by recursion on the number of levels left:
    [depth] is [recursion_depth] when positive and 0 otherwise. *)
Fixpoint process_prompt_levels (depth : nat) (base_prompt : string)
    (difficulties : list string) (num_variants : Z) : M (list VariantRecord) :=
  final_results <- top_level base_prompt difficulties num_variants ;;
  match depth with
  | O => ret final_results
  | S depth' =>
      recursive_results <-
        for_each (fun recursive_results v =>
                    let new_prompt := variant v in
                    sub_variants <-
                      process_prompt_levels depth' new_prompt difficulties num_variants ;;
                    ret (recursive_results ++ sub_variants))
                 final_results [] ;;
      ret (final_results ++ recursive_results)
  end.

Definition process_prompt (base_prompt : string) (difficulties : list string)
    (num_variants : Z) (recursion_depth : Z) : M (list VariantRecord) :=
  process_prompt_levels (Z.to_nat recursion_depth) base_prompt difficulties num_variants.

(** *** Helpers to state properties of the orchestrator *)

(** The recursive calls of one level, in the order of the parents:
    each call takes the world the previous one left. *)
Inductive sub_runs (depth : Z) (difficulties : list string) (num_variants : Z)
    : list VariantRecord -> World -> list (list VariantRecord) -> World -> Prop :=
| sub_runs_nil w : sub_runs depth difficulties num_variants [] w [] w
| sub_runs_cons parent parents w sub w1 subs w2 :
    process_prompt (variant parent) difficulties num_variants depth w = Returns sub w1 ->
    sub_runs depth difficulties num_variants parents w1 subs w2 ->
    sub_runs depth difficulties num_variants (parent :: parents) w (sub :: subs) w2.


End with_env.

(** The records of all chunks in chunk-submission order, each with the
    difficulty of the task that produced it. *)
Definition tagged (tasks : list (string * Z))
    (chunk_results : list (list VariantRecord)) : list (string * VariantRecord) :=
  mjoin (zip_with (fun t chunk => pair t.1 <$> chunk) tasks chunk_results).

(** The items whose variant text is non-empty and is not the text of an
    item before them; [earlier] holds the texts met so far. *)
Fixpoint first_occurrences (earlier : list string)
    (items : list (string * VariantRecord)) : list (string * VariantRecord) :=
  match items with
  | [] => []
  | item :: rest =>
      let text := variant item.2 in
      let kept := first_occurrences (earlier ++ [text]) rest in
      if bool_decide (text <> "" /\ text ∉ earlier) then item :: kept else kept
  end.

(** The records accepted for one difficulty, in acceptance order. *)
Definition accepted_for (difficulty : string)
    (items : list (string * VariantRecord)) : list VariantRecord :=
  (filter (fun item => item.1 = difficulty) (first_occurrences [] items)).*2.

(** The number of records of a list that were requested at a difficulty. *)
Definition count_difficulty (difficulty : string) (records : list VariantRecord) : nat :=
  length (filter (fun r => requested_difficulty r = difficulty) records).

End Orchestrator.

(* ===================================================================== *)
(** ** A scripted environment, to run the program on concrete inputs      *)
(* ===================================================================== *)

Module Scripted.
Import Text Runtime.

(** The draws still to come, the replies of the service still to come
    ([inl e] makes the call raise [e]) and the clock reads so far. *)
Record world := mkWorld {
  draws : list nat;
  replies : list (exn + string);
  ticks : nat
}.

Definition scripted_rand (w : world) : nat * world :=
  match draws w with
  | [] => (O, w)
  | d :: ds => (d, mkWorld ds (replies w) (ticks w))
  end.

Definition scripted_generate_text (model prompt : string) (t : temperature)
    (w : world) : outcome world string :=
  match replies w with
  | [] => Returns "" w
  | inl e :: rs => Raises e
  | inr text :: rs => Returns text (mkWorld (draws w) rs (ticks w))
  end.

Definition scripted_utcnow (w : world) : string * world :=
  ("2024-01-01T00:00:0" +:+ pretty (ticks w `mod` 10)%nat,
   mkWorld (draws w) (replies w) (S (ticks w))).

Definition env : Env := {|
  World := world;
  rand_raw := scripted_rand;
  generate_text := scripted_generate_text;
  utcnow_isoformat := scripted_utcnow
|}.

(** A well-formed reply with one block. *)
Definition reply (reasoning_text variant_text : string) : string :=
  String.concat "" [
    "===="; LF; "Variant 1:"; LF;
    "Reasoning: "; reasoning_text; LF;
    "Variant: "; variant_text; LF; "===="].

End Scripted.

(* ===================================================================== *)
(** ** The reply format of the templates, and a size bound                *)
(* ===================================================================== *)

Module Format.
Import Text.






End Format.

Module Bounds.

(** The most records a run can return when each call keeps at most
    [per_call] top-level records: the records of this call, and for each
    of them the records of a run with one level less. *)
Fixpoint size_bound (per_call : nat) (levels : nat) : nat :=
  match levels with
  | O => per_call
  | S levels' => per_call + per_call * size_bound per_call levels'
  end.

End Bounds.

(* ===================================================================== *)
(** * Properties                                                          *)
(* ===================================================================== *)

(** ** Facts about the text primitives *)

Module TextFacts.
Import Text.









Lemma first_char_lstrip s c : first_char (lstrip s) = Some c -> isspace c = false.
Proof.
  induction s as [|a s IH]; simpl; [done|].
  destruct (isspace a) eqn:Ha; [exact IH|].
  simpl. intros [= <-]. exact Ha.
Qed.







Lemma startswith_contains needle s : startswith needle s = true -> contains needle s = true.
Proof. intros Hs. destruct s; simpl in *; rewrite Hs; reflexivity. Qed.

Lemma contains_tail needle c s : contains needle s = true -> contains needle (String c s) = true.
Proof. intros Hs. simpl. rewrite Hs. apply orb_true_r. Qed.







End TextFacts.

(** ** The response parser *)

Module ParserFacts.
Import Text TextFacts Parser.

Lemma parse_block_app acc block : parse_block acc block = acc ++ parse_block [] block.
Proof.
  unfold parse_block.
  destruct (_ && _); [|by rewrite app_nil_r].
  destruct (truthy _); [reflexivity|by rewrite app_nil_r].
Qed.

Lemma foldl_parse_block blocks : forall acc,
  foldl parse_block acc blocks = acc ++ (blocks ≫= parse_block []).
Proof.
  induction blocks as [|b blocks IH]; intros acc; simpl.
  - by rewrite app_nil_r.
  - rewrite IH, (parse_block_app acc b). by rewrite <- app_assoc.
Qed.

Lemma parse_variants_bind text :
  parse_variants text = re_split text ≫= parse_block [].
Proof. unfold parse_variants. by rewrite foldl_parse_block. Qed.


Lemma truthy_some o : truthy o = true <-> exists t, o = Some t /\ t <> "".
Proof.
  destruct o as [[|c t]|]; simpl; split; try done.
  - intros (t & [= <-] & Ht). done.
  - intros _. by eexists.
  - intros (t & ? & _). done.
Qed.

(** What one block contributes. *)
Lemma parse_block_cases block :
  (parse_block [] block = [] /\
     (contains "Variant:" block && contains "Reasoning:" block = false \/
      truthy (variant_line (splitlines block)) = false)) \/
  (exists t, parse_block [] block = [mkParsedBlock (Some (reasoning_of block)) (Some t) None] /\
     contains "Variant:" block = true /\ contains "Reasoning:" block = true /\
     variant_line (splitlines block) = Some t /\ t <> "").
Proof.
  unfold parse_block.
  destruct (contains "Variant:" block) eqn:Hv, (contains "Reasoning:" block) eqn:Hr;
    simpl; try (left; split; [reflexivity|by left]).
  destruct (truthy _) eqn:Ht; [|left; split; [reflexivity|by right]].
  right. apply truthy_some in Ht as (t & Ht & Hne).
  exists t. rewrite Ht. done.
Qed.

End ParserFacts.

Module ParserSpec.
Import Text TextFacts Parser ParserFacts.

(** C4. Parsing ["====\nVariant 1:\nReasoning: foo\nVariant: bar\n===="]
    returns exactly the one pair with reasoning ["foo"] and variant
    ["bar"]. *)
Theorem parse_variants_example :
  parse_variants example_text = [mkParsedBlock (Some "foo") (Some "bar") None].
Proof. vm_compute. reflexivity. Qed.






End ParserSpec.

(** ** The effect monad *)

Module RuntimeFacts.
Import Runtime.
Local Open Scope py_scope.

Section with_env.
Context `{Env}.

Lemma bind_returns {A B} (m : M A) (k : A -> M B) w a w1 :
  m w = Returns a w1 -> bind m k w = k a w1.
Proof. unfold bind. by intros ->. Qed.

Lemma bind_raises {A B} (m : M A) (k : A -> M B) w e :
  m w = Raises e -> bind m k w = Raises e.
Proof. unfold bind. by intros ->. Qed.

Lemma bind_inv {A B} (m : M A) (k : A -> M B) w b w2 :
  bind m k w = Returns b w2 ->
  exists a w1, m w = Returns a w1 /\ k a w1 = Returns b w2.
Proof. unfold bind. destruct (m w) as [a w1|e]; [|done]. by exists a, w1. Qed.

Lemma randbelow_returns n w :
  exists i, randbelow n w = Returns i (rand_raw w).2 /\ (0 < n -> i < n)%nat.
Proof.
  unfold randbelow. destruct (rand_raw w) as [r w1]. simpl.
  eexists. split; [reflexivity|].
  destruct n as [|n]; [lia|]. intros _. apply Nat.mod_upper_bound. lia.
Qed.

Lemma choice_returns {A} (seq : list A) w :
  seq <> [] ->
  exists x, choice seq w = Returns x (rand_raw w).2 /\ x ∈ seq.
Proof.
  intros Hne. destruct seq as [|a seq]; [done|].
  unfold choice.
  destruct (randbelow_returns (length (a :: seq)) w) as (i & Hi & Hlt).
  rewrite (bind_returns _ _ _ _ _ Hi).
  destruct (lookup_lt_is_Some_2 (a :: seq) i) as [x Hx]; [apply Hlt; simpl; lia|].
  rewrite Hx. exists x. split; [reflexivity|].
  by eapply list_elem_of_lookup_2.
Qed.

Lemma sample_loop_returns {A} (k : nat) : forall (left : nat) (pool : list A) w,
  (k <= left)%nat -> (left <= length pool)%nat ->
  exists chosen w', sample_loop k left pool w = Returns chosen w' /\
                    length chosen = k /\ chosen ⊆ pool.
Proof.
  induction k as [|k IH]; intros left pool w Hk Hleft.
  - exists [], w. repeat split. apply list_subseteq_nil.
  - cbn [sample_loop].
    destruct (randbelow_returns left w) as (j & Hj & Hlt).
    rewrite (bind_returns _ _ _ _ _ Hj).
    destruct (lookup_lt_is_Some_2 pool j) as [x Hx]; [lia|].
    destruct (lookup_lt_is_Some_2 pool (left - 1)) as [y Hy]; [lia|].
    rewrite Hx, Hy.
    destruct (IH (left - 1)%nat (<[j := y]> pool) (rand_raw w).2)
      as (rest & w' & Hrest & Hlen & Hsub); [lia|rewrite length_insert; lia|].
    rewrite (bind_returns _ _ _ _ _ Hrest).
    exists (x :: rest), w'. repeat split; [simpl; lia|].
    intros z Hz. apply elem_of_cons in Hz as [->|Hz].
    + by eapply list_elem_of_lookup_2.
    + apply Hsub in Hz. apply list_elem_of_lookup in Hz as [i Hi].
      destruct (decide (i = j)) as [->|Hne].
      * rewrite list_lookup_insert_eq in Hi by (eapply lookup_lt_Some; exact Hx).
        injection Hi as <-. by eapply list_elem_of_lookup_2.
      * rewrite list_lookup_insert_ne in Hi by done.
        by eapply list_elem_of_lookup_2.
Qed.

Lemma sample_returns {A} (population : list A) (k : nat) w :
  (k <= length population)%nat ->
  exists chosen w', sample population k w = Returns chosen w' /\
                    length chosen = k /\ chosen ⊆ population.
Proof.
  intros Hk. unfold sample.
  destruct (Nat.leb_spec k (length population)); [|lia].
  by apply sample_loop_returns.
Qed.


Lemma gather_length {A} (tasks : list (M A)) : forall w results w',
  gather tasks w = Returns results w' -> length results = length tasks.
Proof.
  induction tasks as [|t tasks IH]; intros w results w'; simpl.
  - by intros [= <- _].
  - intros Hg. apply bind_inv in Hg as (a & w1 & _ & Hg).
    apply bind_inv in Hg as (rs & w2 & Hrs & [= <- _]).
    simpl. by rewrite (IH _ _ _ Hrs).
Qed.


End with_env.

End RuntimeFacts.

(** ** The chunk generator and the record builder *)

Module ChunkFacts.
Import Text Parser Runtime RuntimeFacts Chunk.
Local Open Scope py_scope.

Section with_env.
Context `{Env}.

Lemma now_isoformat_returns w :
  now_isoformat w = Returns (utcnow_isoformat w).1 (utcnow_isoformat w).2.
Proof. unfold now_isoformat. by destruct (utcnow_isoformat w). Qed.

(** The builder never raises, and what it builds carries its inputs. *)
Lemma process_single_variant_returns original_prompt difficulty variant_data w :
  exists built w',
    process_single_variant original_prompt difficulty variant_data w = Returns built w' /\
    forall r, built = Some r ->
      original r = original_prompt /\
      requested_difficulty r = difficulty /\
      variant r <> "" /\
      pb_variant variant_data = Some (variant r) /\
      transformations_used r = default [] (pb_transformations_used variant_data).
Proof.
  unfold process_single_variant.
  destruct (pb_variant variant_data) as [[|c text]|].
  - exists None, w. by split.
  - rewrite (bind_returns _ _ _ _ _ (now_isoformat_returns w)).
    eexists _, _. split; [reflexivity|].
    intros r [= <-]. simpl. done.
  - exists None, w. by split.
Qed.

Lemma gather_builders original_prompt difficulty parsed : forall w,
  exists built w',
    gather (process_single_variant original_prompt difficulty <$> parsed) w
      = Returns built w' /\
    Forall (fun r => original r = original_prompt /\
                     requested_difficulty r = difficulty /\
                     variant r <> "") (omap id built).
Proof.
  induction parsed as [|p parsed IH]; intros w; simpl.
  - exists [], w. split; [done|constructor].
  - destruct (process_single_variant_returns original_prompt difficulty p w)
      as (b & w1 & Hb & Hr).
    destruct (IH w1) as (bs & w2 & Hbs & Hall).
    rewrite (bind_returns _ _ _ _ _ Hb), (bind_returns _ _ _ _ _ Hbs).
    exists (b :: bs), w2. split; [done|].
    destruct b as [r|]; simpl; [|done].
    constructor; [|done]. destruct (Hr r eq_refl) as (? & ? & ? & _). done.
Qed.

(** From the reply on, the chunk generator never raises. *)
Lemma records_of_response_returns prompt difficulty chosen response_text w :
  exists records w',
    records_of_response prompt difficulty chosen response_text w = Returns records w' /\
    Forall (fun r => original r = prompt /\
                     requested_difficulty r = difficulty /\
                     variant r <> "") records.
Proof.
  unfold records_of_response.
  destruct (gather_builders prompt difficulty
              ((fun v => mkParsedBlock (pb_reasoning v) (pb_variant v) (Some chosen))
                 <$> parse_variants response_text) w) as (built & w' & Hb & Hall).
  rewrite (bind_returns _ _ _ _ _ Hb). by exists (omap id built), w'.
Qed.

Lemma transformations_for_unknown difficulty :
  lower difficulty ∉ ["easier"; "equivalent"; "harder"] ->
  transformations_for difficulty = ["make a small change"].
Proof.
  intros Hk. unfold transformations_for, TRANSFORMATIONS_BY_DIFFICULTY. simpl.
  rewrite !not_elem_of_cons in Hk. destruct Hk as (H1 & H2 & H3 & _).
  rewrite !lookup_insert_ne by done. by rewrite lookup_empty.
Qed.

(** The draw of the hints never raises: the sample size is capped at
    the size of the pool. *)
Lemma choose_transforms_returns difficulty w :
  exists num_choices chosen w',
    choice (seq 3 4) w = Returns num_choices (rand_raw w).2 /\
    (3 <= num_choices <= 6)%nat /\
    choose_transforms difficulty w = Returns chosen w' /\
    length chosen = num_choices `min` length (transformations_for difficulty) /\
    chosen ⊆ transformations_for difficulty.
Proof.
  destruct (choice_returns (seq 3 4) w) as (num_choices & Hnum & Hin); [done|].
  unfold choose_transforms. rewrite (bind_returns _ _ _ _ _ Hnum).
  destruct (sample_returns (transformations_for difficulty)
              (num_choices `min` length (transformations_for difficulty))
              (rand_raw w).2) as (chosen & w' & Hs & Hlen & Hsub); [lia|].
  exists num_choices, chosen, w'. repeat split; try done.
  - apply elem_of_seq in Hin. lia.
  - apply elem_of_seq in Hin. lia.
Qed.

Lemma compose_request_returns prompt difficulty count w :
  exists request w', compose_request prompt difficulty count w = Returns request w'.
Proof.
  unfold compose_request, get_random_prompt_template.
  destruct (choose_transforms_returns difficulty w) as (n & chosen & w1 & _ & _ & Hc & _).
  rewrite (bind_returns _ _ _ _ _ Hc).
  edestruct (choice_returns (template_options prompt difficulty count
               (join ", " chosen) (join ", " PERSONAS)) w1) as (text & Ht & _); [done|].
  rewrite (bind_returns _ _ _ _ _ Ht).
  edestruct (choice_returns [T0_8; T1_0; T1_2; T1_4] (rand_raw w1).2) as (t & Htemp & _);
    [done|].
  rewrite (bind_returns _ _ _ _ _ Htemp). by eexists _, _.
Qed.

(** The chunk generator raises exactly when the service call does. *)
Lemma generate_variant_chunk_cases prompt difficulty count w :
  exists request w1,
    compose_request prompt difficulty count w = Returns request w1 /\
    match generate_text MODEL request.1.2 request.2 w1 with
    | Raises e => generate_variant_chunk prompt difficulty count w = Raises e
    | Returns response_text w2 =>
        exists records w3,
          generate_variant_chunk prompt difficulty count w = Returns records w3 /\
          Forall (fun r => original r = prompt /\
                           requested_difficulty r = difficulty /\
                           variant r <> "") records
    end.
Proof.
  destruct (compose_request_returns prompt difficulty count w) as (request & w1 & Hreq).
  exists request, w1. split; [done|].
  unfold generate_variant_chunk. rewrite (bind_returns _ _ _ _ _ Hreq).
  destruct (generate_text MODEL request.1.2 request.2 w1) as [text w2|e] eqn:Hgen.
  - rewrite (bind_returns _ _ _ _ _ Hgen).
    apply records_of_response_returns.
  - by rewrite (bind_raises _ _ _ _ Hgen).
Qed.

End with_env.

End ChunkFacts.

Module ChunkSpec.
Import Text Parser Runtime RuntimeFacts Chunk ChunkFacts.
Local Open Scope py_scope.

(** C7. When the variant text of the parsed pair is missing or empty the
    builder returns [None] and touches nothing; otherwise it reads the
    clock once and returns the record with the five fields copied from
    its inputs, no evaluation, and the clock reading followed by ["Z"]
    as timestamp. *)
Theorem process_single_variant_spec `{Env}
    (original_prompt difficulty : string) (variant_data : ParsedBlock) (w : World) :
  (pb_variant variant_data = None \/ pb_variant variant_data = Some "" ->
     process_single_variant original_prompt difficulty variant_data w = Returns None w) /\
  (forall text, pb_variant variant_data = Some text -> text <> "" ->
     process_single_variant original_prompt difficulty variant_data w =
     Returns (Some {|
                original := original_prompt;
                requested_difficulty := difficulty;
                variant := text;
                reasoning := pb_reasoning variant_data;
                transformations_used := default [] (pb_transformations_used variant_data);
                evaluation := None;
                timestamp := (utcnow_isoformat w).1 +:+ "Z"
              |})
             (utcnow_isoformat w).2).
Proof.
  unfold process_single_variant. split.
  - intros [-> | ->]; reflexivity.
  - intros text -> Hne. destruct text as [|c text]; [done|].
    by rewrite (bind_returns _ _ _ _ _ (now_isoformat_returns w)).
Qed.

(** The builder on a pair with a variant, and on a pair without. *)
Lemma process_single_variant_spec_witness :
  let w := Scripted.mkWorld [] [] 7 in
  process_single_variant (H := Scripted.env) "base" "easier"
    (mkParsedBlock (Some "why") (Some "shorter") (Some ["simplify the language"])) w =
  Returns (Some {|
             original := "base";
             requested_difficulty := "easier";
             variant := "shorter";
             reasoning := Some "why";
             transformations_used := ["simplify the language"];
             evaluation := None;
             timestamp := "2024-01-01T00:00:07Z"
           |})
          (Scripted.mkWorld [] [] 8) /\
  process_single_variant (H := Scripted.env) "base" "easier"
    (mkParsedBlock (Some "why") None None) w = Returns None w.
Proof.
  intros w. split.
  - apply (proj2 (process_single_variant_spec (H := Scripted.env) "base" "easier"
                    (mkParsedBlock (Some "why") (Some "shorter")
                       (Some ["simplify the language"])) w) "shorter");
      [reflexivity|discriminate].
  - apply (proj1 (process_single_variant_spec (H := Scripted.env) "base" "easier"
                    (mkParsedBlock (Some "why") None None) w)).
    left. reflexivity.
Defined.

(** C9. A difficulty whose lower-cased label is none of the three known
    ones gets the pool [["make a small change"]], and that hint is the
    whole sample.  For every difficulty the drawn size is between 3 and
    6 and the sample has the smaller of the drawn size and the pool size
    many hints of the pool, without raising; the request is always
    composed, and the chunk generator returns whenever the service call
    does. *)
Theorem unknown_difficulty_and_capped_sample `{Env} (difficulty : string) (w : World) :
  (lower difficulty ∉ ["easier"; "equivalent"; "harder"] ->
     transformations_for difficulty = ["make a small change"]) /\
  (exists num_choices chosen w1,
     choice (seq 3 4) w = Returns num_choices (rand_raw w).2 /\
     (3 <= num_choices <= 6)%nat /\
     choose_transforms difficulty w = Returns chosen w1 /\
     length chosen = num_choices `min` length (transformations_for difficulty) /\
     chosen ⊆ transformations_for difficulty /\
     (lower difficulty ∉ ["easier"; "equivalent"; "harder"] ->
        chosen = ["make a small change"])) /\
  (forall prompt count,
     exists request w2,
       compose_request prompt difficulty count w = Returns request w2 /\
       forall response_text w3,
         generate_text MODEL request.1.2 request.2 w2 = Returns response_text w3 ->
         exists records w4,
           generate_variant_chunk prompt difficulty count w = Returns records w4).
Proof.
  split; [apply transformations_for_unknown|]. split.
  - destruct (choose_transforms_returns difficulty w)
      as (num_choices & chosen & w1 & Hnum & Hrange & Hchosen & Hlen & Hsub).
    exists num_choices, chosen, w1. repeat split; try done; try lia.
    intros Hunknown. rewrite (transformations_for_unknown _ Hunknown) in Hlen, Hsub.
    simpl in Hlen. destruct chosen as [|hint [|hint' chosen]]; simpl in Hlen; try lia.
    assert (hint ∈ ["make a small change"]) as Hin by (apply Hsub; left).
    apply list_elem_of_singleton in Hin. by subst hint.
  - intros prompt count.
    destruct (generate_variant_chunk_cases prompt difficulty count w)
      as (request & w2 & Hreq & Hcases).
    exists request, w2. split; [done|].
    intros response_text w3 Hgen. rewrite Hgen in Hcases.
    destruct Hcases as (records & w4 & Hrecords & _). by exists records, w4.
Qed.

(** An unknown label in mixed case: the default pool is used. *)
Lemma unknown_difficulty_witness :
  (lower "Bizarre" ∉ ["easier"; "equivalent"; "harder"]) /\
  transformations_for "Bizarre" = ["make a small change"].
Proof.
  assert (lower "Bizarre" ∉ ["easier"; "equivalent"; "harder"]) as Hunknown.
  { apply (bool_decide_unpack _). vm_compute. exact I. }
  split; [exact Hunknown|].
  exact (proj1 (unknown_difficulty_and_capped_sample (H := Scripted.env) "Bizarre"
                  (Scripted.mkWorld [] [] 0)) Hunknown).
Defined.

End ChunkSpec.

(** ** The orchestrator *)

Module OrchestratorFacts.
Import Text Parser Runtime RuntimeFacts Chunk ChunkFacts Orchestrator.
Local Open Scope py_scope.

(** *** Chunk sizing *)

Lemma ceil_div_10_pos total :
  (0 < total)%Z -> ceil_div total 10 = ((total - 1) `div` 10 + 1)%Z.
Proof.
  intros Hpos. unfold ceil_div.
  pose proof (Z.div_mod (- total) 10 ltac:(lia)) as H1.
  pose proof (Z.mod_pos_bound (- total) 10 ltac:(lia)) as H2.
  pose proof (Z.div_mod (total - 1) 10 ltac:(lia)) as H3.
  pose proof (Z.mod_pos_bound (total - 1) 10 ltac:(lia)) as H4.
  lia.
Qed.

Lemma ceil_div_10_nonpos total : (total <= 0)%Z -> (ceil_div total 10 <= 0)%Z.
Proof.
  intros Hle. unfold ceil_div.
  pose proof (Z.div_mod (- total) 10 ltac:(lia)) as H1.
  pose proof (Z.mod_pos_bound (- total) 10 ltac:(lia)) as H2.
  lia.
Qed.

Lemma fmap_constant {A B} (f : A -> B) (c : B) (l : list A) :
  Forall (fun x => f x = c) l -> f <$> l = replicate (length l) c.
Proof. induction 1 as [|x l Hx _ IH]; [done|]. by rewrite fmap_cons, Hx, IH. Qed.

Lemma chunk_counts_nonpos total : (total <= 0)%Z -> chunk_counts total = [].
Proof.
  intros Hle. unfold chunk_counts, py_range.
  pose proof (ceil_div_10_nonpos total Hle).
  replace (Z.to_nat (ceil_div total 10)) with O by lia. reflexivity.
Qed.

(** A positive total gives full chunks of 10 and a last chunk with the
    rest, between 1 and 10. *)
Lemma chunk_counts_pos total :
  (0 < total)%Z ->
  let full := Z.to_nat ((total - 1) `div` 10) in
  chunk_counts total = replicate full 10%Z ++ [(total - 10 * Z.of_nat full)%Z] /\
  (1 <= total - 10 * Z.of_nat full <= 10)%Z.
Proof.
  intros Hpos full.
  pose proof (Z.div_mod (total - 1) 10 ltac:(lia)) as H3.
  pose proof (Z.mod_pos_bound (total - 1) 10 ltac:(lia)) as H4.
  assert (0 <= (total - 1) `div` 10)%Z as Hq by (apply Z.div_pos; lia).
  split; [|unfold full; lia].
  unfold chunk_counts, py_range. rewrite (ceil_div_10_pos total Hpos).
  replace (Z.to_nat ((total - 1) `div` 10 + 1)) with (S full) by (unfold full; lia).
  rewrite seq_S, !fmap_app. simpl. f_equal.
  - rewrite <- list_fmap_compose.
    rewrite (fmap_constant _ 10%Z).
    + by rewrite length_seq.
    + apply Forall_forall. intros i Hi. apply elem_of_seq in Hi. simpl.
      destruct (Z.ltb_spec (Z.of_nat i) ((total - 1) `div` 10 + 1 - 1)); [done|].
      unfold full in Hi. lia.
  - destruct (Z.ltb_spec (Z.of_nat full) ((total - 1) `div` 10 + 1 - 1)) as [Hlt|_].
    + unfold full in Hlt. lia.
    + f_equal. unfold full. lia.
Qed.

Lemma plan_tasks_tags difficulties num_variants task :
  task ∈ plan_tasks difficulties num_variants -> task.1 ∈ difficulties.
Proof.
  unfold plan_tasks. intros Hin.
  apply list_elem_of_bind in Hin as (d & Hin & Hd).
  apply list_elem_of_fmap in Hin as (c & -> & _). done.
Qed.

Lemma plan_tasks_nonpos difficulties num_variants :
  (num_variants <= 0)%Z -> plan_tasks difficulties num_variants = [].
Proof.
  intros Hle. unfold plan_tasks, buffer_multiplier.
  rewrite chunk_counts_nonpos by lia.
  induction difficulties as [|d ds IH]; [done|]. by rewrite bind_cons, IH.
Qed.

(** *** First occurrences *)

Lemma first_occurrences_app a : forall earlier b,
  first_occurrences earlier (a ++ b) =
  first_occurrences earlier a ++
  first_occurrences (earlier ++ ((fun item => variant item.2) <$> a)) b.
Proof.
  induction a as [|item a IH]; intros earlier b; simpl.
  - by rewrite app_nil_r.
  - rewrite IH, <- app_assoc. simpl. by destruct (bool_decide _).
Qed.

(** What is kept sits in the list, has a text, and no item before it in
    the list, nor anything met earlier, has the same text. *)
Lemma first_occurrences_first items : forall earlier x,
  x ∈ first_occurrences earlier items ->
  variant x.2 <> "" /\ (variant x.2 ∉ earlier) /\
  exists i, items !! i = Some x /\
    forall j y, (j < i)%nat -> items !! j = Some y -> variant y.2 <> variant x.2.
Proof.
  induction items as [|item items IH]; intros earlier x; simpl.
  - intros Hin. by apply elem_of_nil in Hin.
  - intros Hin.
    assert (x ∈ first_occurrences (earlier ++ [variant item.2]) items ->
            variant x.2 <> "" /\ (variant x.2 ∉ earlier) /\
            exists i, (item :: items) !! i = Some x /\
              forall j y, (j < i)%nat -> (item :: items) !! j = Some y ->
                          variant y.2 <> variant x.2) as Hrest.
    { intros Hx. destruct (IH _ _ Hx) as (Hne & Hnotin & i & Hi & Hbefore).
      rewrite not_elem_of_app, list_elem_of_singleton in Hnotin.
      destruct Hnotin as [Hnotin Hitem].
      repeat split; [done|done|]. exists (S i). split; [done|].
      intros [|j] y Hj; simpl.
      - intros [= <-]. congruence.
      - apply Hbefore. lia. }
    destruct (bool_decide _) eqn:Hkeep; [|by apply Hrest].
    apply elem_of_cons in Hin as [->|Hin]; [|by apply Hrest].
    apply bool_decide_eq_true in Hkeep as [Hne Hnotin].
    repeat split; [done|done|]. exists O. split; [done|]. intros j y Hj. lia.
Qed.

(** Conversely, an item with a text that nothing before it has is kept. *)
Lemma first_occurrences_complete items : forall earlier i x,
  items !! i = Some x ->
  variant x.2 <> "" ->
  variant x.2 ∉ earlier ->
  (forall j y, (j < i)%nat -> items !! j = Some y -> variant y.2 <> variant x.2) ->
  x ∈ first_occurrences earlier items.
Proof.
  induction items as [|item items IH]; intros earlier i x Hi Hne Hnotin Hbefore; [done|].
  cbn [first_occurrences]. destruct i as [|i].
  - injection Hi as ->. rewrite bool_decide_eq_true_2 by done. by left.
  - assert (x ∈ first_occurrences (earlier ++ [variant item.2]) items) as Hkept.
    { apply (IH _ i); [done|done| |].
      - rewrite not_elem_of_app, list_elem_of_singleton. split; [done|].
        intros Heq. by apply (Hbefore O item); [lia|done|].
      - intros j y Hj Hy. apply (Hbefore (S j) y); [lia|done]. }
    destruct (bool_decide _); [by right|done].
Qed.

Lemma first_occurrences_NoDup items : forall earlier,
  NoDup ((fun item => variant item.2) <$> first_occurrences earlier items).
Proof.
  induction items as [|item items IH]; intros earlier; simpl; [constructor|].
  destruct (bool_decide _); [|apply IH].
  rewrite fmap_cons. constructor; [|apply IH].
  intros Hin. apply list_elem_of_fmap in Hin as (x & Heq & Hx).
  apply first_occurrences_first in Hx as (_ & Hnotin & _).
  apply Hnotin. rewrite Heq. apply elem_of_app. right. by left.
Qed.

Lemma first_occurrences_subseteq items : forall earlier,
  first_occurrences earlier items ⊆ items.
Proof.
  intros earlier x Hx. apply first_occurrences_first in Hx as (_ & _ & i & Hi & _).
  by eapply list_elem_of_lookup_2.
Qed.

(** *** The merge loops *)

Section with_env.
Context `{Env}.

Lemma truthy_text text : truthy (Some text) = true <-> text <> "".
Proof. destruct text; simpl; split; done. Qed.

(** One step of the inner loop, against [first_occurrences]: [earlier]
    lists the texts met so far, and [seen_variants] holds the
    non-empty ones. *)
Lemma accept_returns difficulty st v w accepted earlier :
  difficulty_dict st !! difficulty = Some accepted ->
  (forall s, s <> "" -> s ∈ seen_variants st <-> s ∈ earlier) ->
  exists st',
    accept difficulty st v w = Returns st' w /\
    (forall s, s <> "" -> s ∈ seen_variants st' <-> s ∈ earlier ++ [variant v]) /\
    difficulty_dict st' =
      <[difficulty := accepted ++ (first_occurrences earlier [(difficulty, v)]).*2]>
        (difficulty_dict st).
Proof.
  intros Hdict Hseen. unfold accept. cbn [first_occurrences snd].
  destruct (truthy (Some (variant v))) eqn:Htext; simpl.
  - apply truthy_text in Htext.
    destruct (decide (variant v ∈ seen_variants st)) as [Hin|Hnotin].
    + rewrite bool_decide_eq_false_2 by (intros Hn; by apply Hn).
      rewrite bool_decide_eq_false_2
        by (intros [_ Hn]; by apply Hn, (Hseen _ Htext)).
      exists st. split; [done|]. split.
      * intros s Hs. rewrite elem_of_app, list_elem_of_singleton, <- (Hseen s Hs).
        split; [by left|]. intros [Hl| ->]; done.
      * simpl. rewrite app_nil_r. by rewrite insert_id.
    + rewrite bool_decide_eq_true_2 by done.
      rewrite bool_decide_eq_true_2
        by (split; [done|]; intros Hn; by apply Hnotin, (Hseen _ Htext)).
      rewrite Hdict. eexists. split; [reflexivity|]. simpl. split; [|done].
      intros s Hs.
      rewrite elem_of_union, elem_of_singleton, elem_of_app, list_elem_of_singleton,
        (Hseen s Hs). tauto.
  - assert (variant v = "") as Hempty.
    { destruct (variant v); [done|discriminate]. }
    rewrite bool_decide_eq_false_2 by (intros [Hn _]; done).
    exists st. split; [done|]. split.
    + intros s Hs. rewrite elem_of_app, list_elem_of_singleton, <- (Hseen s Hs).
      split; [by left|]. intros [Hl|Heq]; [done|congruence].
    + simpl. rewrite app_nil_r. by rewrite insert_id.
Qed.

(** The inner loop over one chunk. *)
Lemma for_each_accept difficulty chunk : forall st w accepted earlier,
  difficulty_dict st !! difficulty = Some accepted ->
  (forall s, s <> "" -> s ∈ seen_variants st <-> s ∈ earlier) ->
  exists st',
    for_each (accept difficulty) chunk st w = Returns st' w /\
    (forall s, s <> "" ->
       s ∈ seen_variants st' <-> s ∈ earlier ++ (variant <$> chunk)) /\
    difficulty_dict st' =
      <[difficulty :=
          accepted ++ (first_occurrences earlier (pair difficulty <$> chunk)).*2]>
        (difficulty_dict st).
Proof.
  induction chunk as [|v chunk IH]; intros st w accepted earlier Hdict Hseen.
  - exists st. split; [done|]. split.
    + intros s Hs. rewrite app_nil_r. by apply Hseen.
    + simpl. rewrite app_nil_r. by rewrite insert_id.
  - destruct (accept_returns difficulty st v w accepted earlier Hdict Hseen)
      as (st1 & Hstep & Hseen1 & Hdict1).
    assert (difficulty_dict st1 !! difficulty =
            Some (accepted ++ (first_occurrences earlier [(difficulty, v)]).*2))
      as Hlookup by (rewrite Hdict1; apply lookup_insert_eq).
    destruct (IH st1 w _ _ Hlookup Hseen1) as (st' & Hloop & Hseen' & Hdict').
    exists st'. split; [|split].
    + cbn [for_each]. by rewrite (bind_returns _ _ _ _ _ Hstep).
    + intros s Hs. rewrite (Hseen' s Hs), fmap_cons, <- app_assoc. done.
    + rewrite Hdict', Hdict1, insert_insert_eq. f_equal.
      rewrite fmap_cons.
      change ((difficulty, v) :: (pair difficulty <$> chunk))
        with ([(difficulty, v)] ++ (pair difficulty <$> chunk)).
      rewrite first_occurrences_app, fmap_app, <- app_assoc. done.
Qed.

Lemma filter_all {A} (P : A -> Prop) `{forall x, Decision (P x)} (l : list A) :
  Forall P l -> filter P l = l.
Proof.
  induction 1 as [|x l Hx _ IH]; [done|].
  by rewrite filter_cons_True, IH.
Qed.

Lemma filter_none {A} (P : A -> Prop) `{forall x, Decision (P x)} (l : list A) :
  Forall (fun x => ~ P x) l -> filter P l = [].
Proof.
  induction 1 as [|x l Hx _ IH]; [done|].
  by rewrite filter_cons_False, IH.
Qed.

Lemma first_occurrences_chunk_tags difficulty earlier (chunk : list VariantRecord) :
  Forall (fun item => item.1 = difficulty)
         (first_occurrences earlier (pair difficulty <$> chunk)).
Proof.
  apply Forall_forall. intros item Hin.
  apply first_occurrences_subseteq in Hin.
  apply list_elem_of_fmap in Hin as (v & -> & _). done.
Qed.

Lemma tagged_cons task tasks chunk chunks :
  tagged (task :: tasks) (chunk :: chunks) =
  (pair task.1 <$> chunk) ++ tagged tasks chunks.
Proof. reflexivity. Qed.

(** The outer loop over the enumerated tasks: no lookup fails, and
    each list of the dictionary grows by the first occurrences filed
    under its difficulty. *)
Lemma merge_loop tasks : forall chunks done_chunks st w earlier,
  length chunks = length tasks ->
  (forall task, task ∈ tasks -> is_Some (difficulty_dict st !! task.1)) ->
  (forall s, s <> "" -> s ∈ seen_variants st <-> s ∈ earlier) ->
  exists st',
    for_each (merge_chunk (done_chunks ++ chunks))
             (imap (fun i => pair (length done_chunks + i)%nat) tasks) st w
      = Returns st' w /\
    forall d,
      difficulty_dict st' !! d =
      (fun accepted =>
         accepted ++
         (filter (fun item => item.1 = d)
                 (first_occurrences earlier (tagged tasks chunks))).*2)
        <$> difficulty_dict st !! d.
Proof.
  induction tasks as [|task tasks IH];
    intros chunks done_chunks st w earlier Hlen Hkeys Hseen.
  - exists st. split; [done|]. intros d.
    destruct chunks; [|done]. cbn.
    destruct (difficulty_dict st !! d); simpl; [|done]. by rewrite app_nil_r.
  - destruct chunks as [|chunk chunks]; [done|].
    destruct (Hkeys task) as [accepted Hacc]; [by left|].
    destruct (for_each_accept task.1 chunk st w accepted earlier Hacc Hseen)
      as (st1 & Hinner & Hseen1 & Hdict1).
    destruct (IH chunks (done_chunks ++ [chunk]) st1 w (earlier ++ (variant <$> chunk)))
      as (st' & Houter & Hdict').
    { simpl in Hlen. lia. }
    { intros t Ht. rewrite Hdict1. apply lookup_insert_is_Some'.
      right. apply Hkeys. by right. }
    { done. }
    exists st'. split.
    + rewrite imap_cons. cbn [for_each].
      assert (merge_chunk (done_chunks ++ chunk :: chunks) st
                ((length done_chunks + 0)%nat, task) w = Returns st1 w) as Hstep.
      { unfold merge_chunk. cbn [fst snd].
        rewrite (list_lookup_middle done_chunks chunks chunk) by lia. done. }
      rewrite (bind_returns _ _ _ _ _ Hstep).
      rewrite <- Houter, <- app_assoc. cbn [app].
      f_equal. apply imap_ext. intros i t _. simpl.
      rewrite length_app. simpl. f_equal. lia.
    + intros d. rewrite Hdict', Hdict1, tagged_cons, first_occurrences_app.
      rewrite filter_app, fmap_app.
      rewrite <- (list_fmap_compose (pair task.1)). simpl.
      change ((fun item : string * VariantRecord => variant item.2) ∘ pair task.1)
        with variant.
      destruct (decide (d = task.1)) as [->|Hne].
      * rewrite lookup_insert_eq, Hacc. simpl.
        rewrite (filter_all _ _ (first_occurrences_chunk_tags task.1 earlier chunk)).
        by rewrite <- app_assoc.
      * rewrite lookup_insert_ne by done.
        rewrite (filter_none (fun item => item.1 = d)
                   (first_occurrences earlier (pair task.1 <$> chunk))).
        -- done.
        -- eapply Forall_impl; [apply first_occurrences_chunk_tags|].
           simpl. intros item -> Heq. by apply Hne.
Qed.

Lemma merge_returns tasks chunks (dict : gmap string (list VariantRecord)) w :
  length chunks = length tasks ->
  (forall task, task ∈ tasks -> dict !! task.1 = Some []) ->
  exists st,
    merge tasks chunks (mkMergeState ∅ dict) w = Returns st w /\
    forall d, dict !! d = Some [] ->
      difficulty_dict st !! d = Some (accepted_for d (tagged tasks chunks)).
Proof.
  intros Hlen Hkeys.
  destruct (merge_loop tasks chunks [] (mkMergeState ∅ dict) w [] Hlen)
    as (st & Hloop & Hdict).
  - intros task Ht. simpl. rewrite (Hkeys task Ht). by eexists.
  - intros s _. simpl. split; intros Hin; [by apply not_elem_of_empty in Hin|].
    by apply elem_of_nil in Hin.
  - exists st. split; [exact Hloop|].
    intros d Hd. rewrite Hdict. simpl. by rewrite Hd.
Qed.

(** The dictionary comprehension [{d: [] for d in difficulties}]. *)
Lemma empty_dict_lookup (difficulties : list string) d :
  d ∈ difficulties ->
  (list_to_map ((fun d => (d, [])) <$> difficulties)
     : gmap string (list VariantRecord)) !! d = Some [].
Proof.
  induction difficulties as [|a ds IH]; intros Hin.
  - by apply elem_of_nil in Hin.
  - rewrite fmap_cons, list_to_map_cons.
    destruct (decide (a = d)) as [->|Hne].
    + apply lookup_insert_eq.
    + rewrite lookup_insert_ne by done. apply IH.
      apply elem_of_cons in Hin as [Heq|Hin]; [congruence|done].
Qed.

(** The loop that fills [final_results]. *)
Lemma collect_loop (dict : gmap string (list VariantRecord)) num_variants
    (lists : string -> list VariantRecord) difficulties : forall final_results w,
  (forall d, d ∈ difficulties -> dict !! d = Some (lists d)) ->
  for_each (collect dict num_variants) difficulties final_results w =
  Returns (final_results ++
           (difficulties ≫= fun d => slice_to (lists d) num_variants)) w.
Proof.
  induction difficulties as [|d ds IH]; intros final_results w Hdict.
  - simpl. by rewrite app_nil_r.
  - cbn [for_each]. unfold collect at 1, bind.
    rewrite (Hdict d) by (by left). unfold ret at 1.
    rewrite IH by (intros d' Hd'; apply Hdict; by right).
    by rewrite bind_cons, <- app_assoc.
Qed.

Lemma gather_chunks_length base_prompt tasks w chunks w' :
  gather_chunks base_prompt tasks w = Returns chunks w' ->
  length chunks = length tasks.
Proof.
  unfold gather_chunks. intros Hg. apply gather_length in Hg.
  by rewrite length_fmap in Hg.
Qed.

(** Every record of a chunk carries the difficulty of its task, the
    base prompt, and a non-empty variant. *)
Lemma gather_chunks_records base_prompt tasks : forall w chunks w',
  gather_chunks base_prompt tasks w = Returns chunks w' ->
  Forall (fun item => requested_difficulty item.2 = item.1 /\
                      original item.2 = base_prompt /\
                      variant item.2 <> "") (tagged tasks chunks).
Proof.
  unfold gather_chunks.
  induction tasks as [|task tasks IH]; intros w chunks w'.
  - simpl. intros [= <- _]. constructor.
  - rewrite fmap_cons. cbn [gather]. intros Hg.
    apply bind_inv in Hg as (chunk & w1 & Hchunk & Hg).
    apply bind_inv in Hg as (rest & w2 & Hrest & [= <- _]).
    rewrite tagged_cons. apply Forall_app. split; [|by eapply IH].
    destruct (generate_variant_chunk_cases base_prompt task.1 task.2 w)
      as (request & w3 & _ & Hcases).
    destruct (generate_text MODEL request.1.2 request.2 w3) as [text w4|e].
    + destruct Hcases as (records & w5 & Hrecords & Hall).
      rewrite Hchunk in Hrecords. injection Hrecords as <- _.
      apply Forall_fmap. eapply Forall_impl; [exact Hall|].
      intros r (Ho & Hd & Hv). simpl. done.
    + congruence.
Qed.

(** [top_level] raises exactly when the gather of the chunks does;
    otherwise it returns, for each difficulty of the list in turn, the
    first [num_variants] records accepted for it. *)
Lemma top_level_cases base_prompt difficulties num_variants w :
  match gather_chunks base_prompt (plan_tasks difficulties num_variants) w with
  | Raises e => top_level base_prompt difficulties num_variants w = Raises e
  | Returns chunks w1 =>
      top_level base_prompt difficulties num_variants w =
      Returns (difficulties ≫= fun d =>
                 slice_to (accepted_for d
                             (tagged (plan_tasks difficulties num_variants) chunks))
                          num_variants) w1
  end.
Proof.
  unfold top_level.
  destruct (gather_chunks _ _ w) as [chunks w1|e] eqn:Hg.
  - rewrite (bind_returns _ _ _ _ _ Hg).
    destruct (merge_returns (plan_tasks difficulties num_variants) chunks
                (list_to_map ((fun d => (d, [])) <$> difficulties)) w1)
      as (st & Hmerge & Hdict).
    + by eapply gather_chunks_length.
    + intros task Ht. apply empty_dict_lookup. by eapply plan_tasks_tags.
    + rewrite (bind_returns _ _ _ _ _ Hmerge).
      rewrite (collect_loop _ _
                 (fun d => accepted_for d
                             (tagged (plan_tasks difficulties num_variants) chunks))).
      * done.
      * intros d Hd. apply Hdict. by apply empty_dict_lookup.
  - by rewrite (bind_raises _ _ _ _ Hg).
Qed.

(** *** Recursion *)

Lemma process_prompt_levels_unfold depth base_prompt difficulties num_variants :
  process_prompt_levels depth base_prompt difficulties num_variants =
  (final_results <- top_level base_prompt difficulties num_variants ;;
   match depth with
   | O => ret final_results
   | S depth' =>
       recursive_results <-
         for_each (fun recursive_results v =>
                     sub_variants <-
                       process_prompt_levels depth' (variant v) difficulties num_variants ;;
                     ret (recursive_results ++ sub_variants))
                  final_results [] ;;
       ret (final_results ++ recursive_results)
   end).
Proof. destruct depth; reflexivity. Qed.


Lemma loop_sub_runs depth difficulties num_variants parents : forall acc w acc' w',
  for_each (fun recursive_results v =>
              sub_variants <-
                process_prompt_levels (Z.to_nat depth) (variant v)
                  difficulties num_variants ;;
              ret (recursive_results ++ sub_variants))
           parents acc w
  = Returns acc' w' ->
  exists subs,
    acc' = acc ++ mjoin subs /\
    sub_runs depth difficulties num_variants parents w subs w'.
Proof.
  induction parents as [|parent parents IH]; intros acc w acc' w'.
  - simpl. intros [= <- <-]. exists []. split; [by rewrite app_nil_r|constructor].
  - cbn [for_each]. intros Hloop.
    apply bind_inv in Hloop as (acc1 & w1 & Hstep & Hloop).
    apply bind_inv in Hstep as (sub & w2 & Hsub & [= <- <-]).
    destruct (IH _ _ _ _ Hloop) as (subs & -> & Hruns).
    exists (sub :: subs). split; [by rewrite <- app_assoc|].
    by econstructor.
Qed.

(** What a returning run is made of. *)
Lemma process_prompt_returns base_prompt difficulties num_variants depth w out w' :
  process_prompt base_prompt difficulties num_variants depth w = Returns out w' ->
  exists top w1 subs,
    top_level base_prompt difficulties num_variants w = Returns top w1 /\
    out = top ++ mjoin subs /\
    ((depth <= 0)%Z -> subs = [] /\ w' = w1) /\
    ((0 < depth)%Z ->
       sub_runs (depth - 1) difficulties num_variants top w1 subs w').
Proof.
  unfold process_prompt. rewrite process_prompt_levels_unfold. intros Hrun.
  apply bind_inv in Hrun as (top & w1 & Htop & Hrest).
  destruct (Z.to_nat depth) as [|levels] eqn:Hdepth.
  - injection Hrest as <- <-. exists top, w1, [].
    repeat split; [done|by rewrite app_nil_r|lia].
  - apply bind_inv in Hrest as (recursive & w2 & Hloop & [= <- <-]).
    replace levels with (Z.to_nat (depth - 1)) in Hloop by lia.
    apply loop_sub_runs in Hloop as (subs & -> & Hruns).
    exists top, w1, subs. repeat split; [done|lia|lia|done].
Qed.

(** *** Selection of the top-level records *)

Lemma slice_to_subseteq {A} (l : list A) n : slice_to l n ⊆ l.
Proof. unfold slice_to. destruct (n <? 0)%Z; apply subseteq_take. Qed.

Lemma slice_to_sublist {A} (l : list A) n : slice_to l n `sublist_of` l.
Proof. unfold slice_to. destruct (n <? 0)%Z; apply sublist_take. Qed.

Lemma slice_to_fmap {A B} (f : A -> B) (l : list A) n :
  f <$> slice_to l n = slice_to (f <$> l) n.
Proof. unfold slice_to. rewrite length_fmap. destruct (n <? 0)%Z; apply fmap_take. Qed.

Lemma NoDup_fmap_inj {A B} (f : A -> B) (l : list A) x y :
  NoDup (f <$> l) -> x ∈ l -> y ∈ l -> f x = f y -> x = y.
Proof.
  induction l as [|a l IH]; intros Hnd Hx Hy Heq.
  - by apply elem_of_nil in Hx.
  - rewrite fmap_cons in Hnd. apply NoDup_cons in Hnd as [Hnotin Hnd].
    apply elem_of_cons in Hx as [->|Hx]; apply elem_of_cons in Hy as [->|Hy].
    + done.
    + exfalso. apply Hnotin. rewrite Heq. by apply list_elem_of_fmap_2.
    + exfalso. apply Hnotin. rewrite <- Heq. by apply list_elem_of_fmap_2.
    + by apply IH.
Qed.

(** Picking, for each difficulty of a duplicate-free list, a slice of
    the items filed under it keeps the variant texts distinct. *)
Lemma selection_NoDup (kept : list (string * VariantRecord)) num_variants difficulties :
  NoDup difficulties ->
  NoDup ((fun item => variant item.2) <$> kept) ->
  NoDup (variant <$>
         (difficulties ≫= fun d =>
            slice_to ((filter (fun item => item.1 = d) kept).*2) num_variants)).
Proof.
  intros Hds Hkept.
  assert (forall d r, r ∈ slice_to ((filter (fun item => item.1 = d) kept).*2) num_variants ->
                      (d, r) ∈ kept) as Hfrom.
  { intros d r Hr. apply slice_to_subseteq in Hr.
    apply list_elem_of_fmap in Hr as ([d' r'] & -> & Hin).
    apply list_elem_of_filter in Hin as [Htag Hin]. simpl in Htag. by subst d'. }
  induction Hds as [|d ds Hnotin Hds IH]; [constructor|].
  rewrite bind_cons, fmap_app. apply NoDup_app. split; [|split; [|exact IH]].
  - rewrite slice_to_fmap. eapply sublist_NoDup; [|apply slice_to_sublist].
    rewrite <- list_fmap_compose.
    eapply sublist_NoDup; [exact Hkept|].
    apply fmap_sublist, sublist_filter.
  - intros text Hhere Hthere.
    apply list_elem_of_fmap in Hhere as (r1 & -> & Hr1).
    apply list_elem_of_fmap in Hthere as (r2 & Heq & Hr2).
    apply list_elem_of_bind in Hr2 as (d2 & Hr2 & Hd2).
    apply Hfrom in Hr1, Hr2.
    assert ((d, r1) = (d2, r2)) as Hsame.
    { eapply (NoDup_fmap_inj (fun item => variant item.2)); eauto. }
    injection Hsame as -> _. done.
Qed.

(** With a duplicate-free list of difficulties, at most [bound]
    records of a selection were requested at a given difficulty, when
    each group has at most [bound] records, all of its difficulty. *)
Lemma selection_count (group : string -> list VariantRecord) bound difficulties d0 :
  NoDup difficulties ->
  (forall d r, r ∈ group d -> requested_difficulty r = d) ->
  (forall d, length (group d) <= bound)%nat ->
  (count_difficulty d0 (difficulties ≫= group) <= bound)%nat.
Proof.
  intros Hds Htag Hbound. unfold count_difficulty.
  assert (forall ds, d0 ∉ ds ->
            filter (fun r => requested_difficulty r = d0) (ds ≫= group) = []) as Hnone.
  { intros ds Hnotin. apply filter_none, Forall_forall. intros r Hr Heq.
    apply list_elem_of_bind in Hr as (d & Hr & Hd).
    apply Htag in Hr. congruence. }
  induction Hds as [|d ds Hnotin Hds IH]; [simpl; lia|].
  rewrite bind_cons, filter_app, length_app.
  destruct (decide (d = d0)) as [->|Hne].
  - rewrite (Hnone ds Hnotin). simpl.
    pose proof (length_filter (fun r => requested_difficulty r = d0) (group d0)).
    specialize (Hbound d0). lia.
  - rewrite (filter_none _ (group d)); [simpl; exact IH|].
    apply Forall_forall. intros r Hr Heq. apply Htag in Hr. congruence.
Qed.

(** *** Where an exception can come from *)




End with_env.

End OrchestratorFacts.


Module OrchestratorSpec.
Import Text Parser Runtime RuntimeFacts Chunk ChunkFacts Orchestrator OrchestratorFacts.
Local Open Scope py_scope.

(** C5. The tasks of a call are, for each difficulty in turn, the chunks
    of a total of three times [num_variants].  No chunk is larger than
    10 or smaller than 1; a positive total gives full chunks of 10
    followed by one last chunk with the rest, and a total of 0 or less
    gives no chunk.  A total of 9 gives the single chunk 9, and a total
    of 25 gives 10, 10, 5. *)
Theorem chunk_sizing (difficulties : list string) (num_variants : Z) :
  plan_tasks difficulties num_variants =
    (difficulties ≫= fun d => pair d <$> chunk_counts (num_variants * 3)) /\
  (forall total,
     Forall (fun count => 1 <= count <= 10)%Z (chunk_counts total) /\
     ((0 < total)%Z ->
        exists full : nat,
          chunk_counts total = replicate full 10%Z ++ [(total - 10 * Z.of_nat full)%Z]) /\
     ((total <= 0)%Z -> chunk_counts total = [])) /\
  chunk_counts 9 = [9%Z] /\
  chunk_counts 25 = [10%Z; 10%Z; 5%Z].
Proof.
  split; [reflexivity|]. split; [|split; reflexivity].
  intros total. split; [|split].
  - destruct (Z.lt_ge_cases 0 total) as [Hpos|Hle].
    + destruct (chunk_counts_pos total Hpos) as [-> Hlast].
      apply Forall_app. split.
      * apply Forall_replicate. lia.
      * by constructor.
    + rewrite chunk_counts_nonpos by lia. constructor.
  - intros Hpos. destruct (chunk_counts_pos total Hpos) as [Heq _]. by eexists.
  - apply chunk_counts_nonpos.
Qed.

(** A total of 30: three full chunks, the last one taking the rest. *)
Lemma chunk_sizing_witness :
  exists full : nat,
    chunk_counts 30 = replicate full 10%Z ++ [(30 - 10 * Z.of_nat full)%Z].
Proof.
  apply (proj1 (proj2 (proj1 (proj2 (chunk_sizing [] 0)) 30%Z))). reflexivity.
Defined.



(** C6. A returned list is the top-level records followed by the
    recursive ones.  The top-level records are, for each difficulty in
    the order of the input list, the first [num_variants] records
    accepted for it, in acceptance order; the recursive records are the
    results of the runs on the top-level records, in the order of these
    parents, and there are none without recursion. *)
Theorem result_order `{Env} (base_prompt : string) (difficulties : list string)
    (num_variants recursion_depth : Z) (w : World)
    (out : list VariantRecord) (w' : World) :
  process_prompt base_prompt difficulties num_variants recursion_depth w = Returns out w' ->
  exists chunks w1 subs,
    gather_chunks base_prompt (plan_tasks difficulties num_variants) w
      = Returns chunks w1 /\
    let items := tagged (plan_tasks difficulties num_variants) chunks in
    let top := difficulties ≫= fun d => slice_to (accepted_for d items) num_variants in
    out = top ++ mjoin subs /\
    ((recursion_depth <= 0)%Z -> subs = [] /\ w' = w1) /\
    ((0 < recursion_depth)%Z ->
       sub_runs (recursion_depth - 1) difficulties num_variants top w1 subs w').
Proof.
  intros Hrun.
  apply process_prompt_returns in Hrun as (top & w1 & subs & Htop & -> & Hflat & Hrec).
  pose proof (top_level_cases base_prompt difficulties num_variants w) as Hcases.
  destruct (gather_chunks _ _ w) as [chunks w2|e]; [|congruence].
  rewrite Htop in Hcases. injection Hcases as -> ->.
  exists chunks, w2, subs. split; [reflexivity|]. cbv zeta.
  split; [reflexivity|]. split; assumption.
Qed.

(** A run with one level of recursion: the record of the first level,
    then the record of the run on it. *)
Lemma result_order_witness :
  let w := Scripted.mkWorld []
             [inr (Scripted.reply "r1" "v1"); inr (Scripted.reply "r2" "v2")] 0 in
  exists out w' chunks w1 subs,
    process_prompt (H := Scripted.env) "base" ["easier"] 1 1 w = Returns out w' /\
    gather_chunks (H := Scripted.env) "base" (plan_tasks ["easier"] 1) w
      = Returns chunks w1 /\
    let items := tagged (plan_tasks ["easier"] 1) chunks in
    let top := ["easier"] ≫= fun d => slice_to (accepted_for d items) 1 in
    out = top ++ mjoin subs /\
    ((1 <= 0)%Z -> subs = [] /\ w' = w1) /\
    ((0 < 1)%Z -> sub_runs (H := Scripted.env) (1 - 1) ["easier"] 1 top w1 subs w').
Proof.
  intros w.
  destruct (process_prompt (H := Scripted.env) "base" ["easier"] 1 1 w)
    as [out w'|e] eqn:Hrun; [|by vm_compute in Hrun].
  destruct (result_order (H := Scripted.env) "base" ["easier"] 1 1 w out w' Hrun)
    as (chunks & w1 & subs & Hrest).
  by exists out, w', chunks, w1, subs.
Defined.

(** C1, as the claim states it, fails with recursion: the service gives
    the same variant to the first level and to the recursive run, and
    both records are returned. *)
Lemma recursion_repeats_variant :
  exists r1 r2 w',
    process_prompt (H := Scripted.env) "base" ["easier"] 1 1
      (Scripted.mkWorld []
         [inr (Scripted.reply "r" "same"); inr (Scripted.reply "r" "same")] 0)
    = Returns [r1; r2] w' /\
    variant r1 = "same" /\ variant r2 = "same" /\
    ~ NoDup (variant <$> [r1; r2]).
Proof.
  eexists _, _, _. split; [vm_compute; reflexivity|].
  split; [reflexivity|]. split; [reflexivity|].
  intros Hnd. apply NoDup_cons in Hnd as [Hnotin _]. apply Hnotin. by left.
Qed.

(** C1, amended. With a duplicate-free list of difficulties, the
    top-level records of a call, which are all its records without
    recursion, have pairwise distinct variant texts: across the
    difficulties of the call, a record is kept only if no record before
    it in chunk-submission order has the same text. *)
Theorem top_level_variants_unique `{Env} (base_prompt : string)
    (difficulties : list string) (num_variants recursion_depth : Z) (w : World)
    (out : list VariantRecord) (w' : World) :
  NoDup difficulties ->
  process_prompt base_prompt difficulties num_variants recursion_depth w = Returns out w' ->
  exists chunks w1 top rest,
    gather_chunks base_prompt (plan_tasks difficulties num_variants) w
      = Returns chunks w1 /\
    top_level base_prompt difficulties num_variants w = Returns top w1 /\
    out = top ++ rest /\
    ((recursion_depth <= 0)%Z -> rest = []) /\
    NoDup (variant <$> top) /\
    forall r, r ∈ top ->
      exists i d,
        tagged (plan_tasks difficulties num_variants) chunks !! i = Some (d, r) /\
        forall j item, (j < i)%nat ->
          tagged (plan_tasks difficulties num_variants) chunks !! j = Some item ->
          variant item.2 <> variant r.
Proof.
  intros Hds Hrun.
  apply process_prompt_returns in Hrun as (top & w1 & subs & Htop & -> & Hflat & _).
  pose proof (top_level_cases base_prompt difficulties num_variants w) as Hcases.
  destruct (gather_chunks _ _ w) as [chunks w2|e]; [|congruence].
  rewrite Htop in Hcases. injection Hcases as -> ->.
  exists chunks, w2. eexists _, (mjoin subs).
  split; [reflexivity|]. split; [exact Htop|]. split; [reflexivity|].
  split; [|split].
  - intros Hle. by destruct (Hflat Hle) as [-> _].
  - apply selection_NoDup; [done|]. apply first_occurrences_NoDup.
  - intros r Hr. apply list_elem_of_bind in Hr as (d & Hr & _).
    apply slice_to_subseteq in Hr. unfold accepted_for in Hr.
    apply list_elem_of_fmap in Hr as ([d' r'] & -> & Hin).
    apply list_elem_of_filter in Hin as [_ Hin].
    apply first_occurrences_first in Hin as (_ & _ & i & Hi & Hbefore).
    by exists i, d'.
Qed.

(** Two difficulties whose chunks give the same variant: it is kept
    once, under the first difficulty. *)
Lemma top_level_variants_unique_witness :
  let w := Scripted.mkWorld []
             [inr (Scripted.reply "r" "same"); inr (Scripted.reply "r" "same")] 0 in
  exists out w' top rest,
    process_prompt (H := Scripted.env) "base" ["easier"; "harder"] 1 0 w
      = Returns out w' /\
    out = top ++ rest /\ rest = [] /\ length top = 1%nat /\
    NoDup (variant <$> top).
Proof.
  intros w.
  destruct (process_prompt (H := Scripted.env) "base" ["easier"; "harder"] 1 0 w)
    as [out w'|e] eqn:Hrun; [|by vm_compute in Hrun].
  assert (NoDup ["easier"; "harder"]) as Hds.
  { apply (bool_decide_unpack _). vm_compute. exact I. }
  destruct (top_level_variants_unique (H := Scripted.env)
              "base" ["easier"; "harder"] 1 0 w out w' Hds Hrun)
    as (chunks & w1 & top & rest & _ & Htop & Hout & Hrest & Hnd & _).
  exists out, w', top, rest. repeat split; [done|by apply Hrest|  |done].
  vm_compute in Htop. by injection Htop as <- _.
Defined.

(** C2, as the claim states it, fails with recursion: one record is
    asked for, and the run returns two records of the difficulty, one
    of the first level and one of the recursive run. *)
Lemma recursion_exceeds_count :
  exists out w',
    process_prompt (H := Scripted.env) "base" ["easier"] 1 1
      (Scripted.mkWorld []
         [inr (Scripted.reply "r1" "v1"); inr (Scripted.reply "r2" "v2")] 0)
    = Returns out w' /\
    count_difficulty "easier" out = 2%nat /\
    ~ (Z.of_nat (count_difficulty "easier" out) <= 1)%Z.
Proof.
  eexists _, _. split; [vm_compute; reflexivity|].
  split; [vm_compute; reflexivity|]. vm_compute. intros Hle. by apply Hle.
Qed.

(** C2, amended. With a duplicate-free list of difficulties, the
    top-level records of a call, which are all its records without
    recursion, hold at most [num_variants] records of each requested
    difficulty, and none when [num_variants] is not positive. *)
Theorem top_level_count_bounded `{Env} (base_prompt : string)
    (difficulties : list string) (num_variants recursion_depth : Z) (w : World)
    (out : list VariantRecord) (w' : World) :
  NoDup difficulties ->
  process_prompt base_prompt difficulties num_variants recursion_depth w = Returns out w' ->
  exists top w1 rest,
    top_level base_prompt difficulties num_variants w = Returns top w1 /\
    out = top ++ rest /\
    ((recursion_depth <= 0)%Z -> rest = []) /\
    forall difficulty, (count_difficulty difficulty top <= Z.to_nat num_variants)%nat.
Proof.
  intros Hds Hrun.
  apply process_prompt_returns in Hrun as (top & w1 & subs & Htop & -> & Hflat & _).
  pose proof (top_level_cases base_prompt difficulties num_variants w) as Hcases.
  destruct (gather_chunks _ _ w) as [chunks w2|e] eqn:Hgather; [|congruence].
  rewrite Htop in Hcases. injection Hcases as -> ->.
  eexists _, w2, (mjoin subs).
  split; [exact Htop|]. split; [reflexivity|]. split.
  - intros Hle. by destruct (Hflat Hle) as [-> _].
  - intros difficulty. apply selection_count; [done|..].
    + intros d r Hr. apply slice_to_subseteq in Hr. unfold accepted_for in Hr.
      apply list_elem_of_fmap in Hr as ([d' r'] & -> & Hin).
      apply list_elem_of_filter in Hin as [Htag Hin]. simpl in Htag. subst d'.
      apply first_occurrences_subseteq in Hin.
      pose proof (gather_chunks_records _ _ _ _ _ Hgather) as Hall.
      rewrite Forall_forall in Hall. by destruct (Hall _ Hin) as [Hd _].
    + intros d. destruct (Z.lt_ge_cases 0 num_variants) as [Hpos|Hle].
      * unfold slice_to. destruct (Z.ltb_spec num_variants 0); [lia|].
        rewrite length_take. lia.
      * apply gather_chunks_length in Hgather.
        rewrite plan_tasks_nonpos in * by lia.
        destruct chunks; [|done]. by destruct num_variants.
Qed.

(** Six replies for one difficulty and two records asked for: two
    records are returned. *)
Lemma top_level_count_bounded_witness :
  let text := String.concat ""
                [Scripted.reply "r" "a"; Scripted.reply "r" "b"; Scripted.reply "r" "c"] in
  let w := Scripted.mkWorld [] [inr text] 0 in
  exists out w' top rest,
    process_prompt (H := Scripted.env) "base" ["easier"] 2 0 w = Returns out w' /\
    out = top ++ rest /\ rest = [] /\
    (count_difficulty "easier" top <= 2)%nat.
Proof.
  intros text w.
  destruct (process_prompt (H := Scripted.env) "base" ["easier"] 2 0 w)
    as [out w'|e] eqn:Hrun; [|by vm_compute in Hrun].
  assert (NoDup ["easier"]) as Hds.
  { apply (bool_decide_unpack _). vm_compute. exact I. }
  destruct (top_level_count_bounded (H := Scripted.env)
              "base" ["easier"] 2 0 w out w' Hds Hrun)
    as (top & w1 & rest & _ & Hout & Hrest & Hcount).
  exists out, w', top, rest. repeat split; [done|by apply Hrest|apply Hcount].
Defined.

End OrchestratorSpec.

(* ===================================================================== *)
(** * Further properties                                                  *)
(* ===================================================================== *)

(** ** Texts: concatenation, substrings, separators *)

Module TextMore.
Import Text TextFacts.

Lemma app_cons c s t : String c s +:+ t = String c (s +:+ t).
Proof. reflexivity. Qed.

Lemma app_empty_l t : "" +:+ t = t.
Proof. reflexivity. Qed.

Lemma app_empty_r s : s +:+ "" = s.
Proof. induction s as [|c s IH]; [done|]. by rewrite app_cons, IH. Qed.

Lemma app_assoc a b c : (a +:+ b) +:+ c = a +:+ (b +:+ c).
Proof. induction a as [|x a IH]; [done|]. by rewrite !app_cons, IH. Qed.

Lemma string_length_app a b : String.length (a +:+ b) = (String.length a + String.length b)%nat.
Proof. induction a as [|x a IH]; [done|]. rewrite app_cons. simpl. by rewrite IH. Qed.

Lemma rev_app_append s : forall t, String.rev_app s t = String.rev s +:+ t.
Proof.
  unfold String.rev. induction s as [|c s IH]; intros t; [done|].
  simpl. rewrite (IH (String c t)), (IH (String c "")), app_assoc. done.
Qed.

Lemma rev_cons c s : String.rev (String c s) = String.rev s +:+ String c "".
Proof. unfold String.rev at 1. simpl. apply rev_app_append. Qed.

Lemma startswith_iff p : forall s,
  startswith p s = true <-> exists post, s = p +:+ post.
Proof.
  induction p as [|a p IH]; intros s.
  - split; [by exists s|done].
  - destruct s as [|b s]; simpl.
    + split; [done|]. by intros [post Hpost].
    + destruct (Ascii.eqb_spec a b) as [->|Hne].
      * rewrite IH. split; intros [post Hpost]; exists post.
        -- by rewrite app_cons, Hpost.
        -- rewrite app_cons in Hpost. by injection Hpost.
      * split; [done|]. intros [post Hpost]. rewrite app_cons in Hpost. congruence.
Qed.

Lemma startswith_self p t : startswith p (p +:+ t) = true.
Proof. apply startswith_iff. by exists t. Qed.

Lemma startswith_app p s t :
  startswith p s = true -> startswith p (s +:+ t) = true.
Proof.
  rewrite !startswith_iff. intros [post ->]. exists (post +:+ t). apply app_assoc.
Qed.

(** [needle in s] holds exactly when [s] splits around [needle]. *)
Lemma contains_iff needle : forall s,
  contains needle s = true <-> exists pre post, s = pre +:+ needle +:+ post.
Proof.
  intros s. split.
  - induction s as [|c s IH]; simpl.
    + rewrite orb_false_r, startswith_iff. intros [post Hpost].
      exists "", post. by rewrite app_empty_l.
    + rewrite orb_true_iff, startswith_iff. intros [[post Hpost]|Hs].
      * exists "", post. by rewrite app_empty_l.
      * destruct (IH Hs) as (pre & post & ->). by exists (String c pre), post.
  - intros (pre & post & ->). induction pre as [|c pre IH].
    + rewrite app_empty_l. apply startswith_contains, startswith_self.
    + rewrite app_cons. by apply contains_tail.
Qed.

Lemma contains_app_l needle a b :
  contains needle a = true -> contains needle (a +:+ b) = true.
Proof.
  rewrite !contains_iff. intros (pre & post & ->).
  exists pre, (post +:+ b). by rewrite !app_assoc.
Qed.

Lemma contains_app_r needle a b :
  contains needle b = true -> contains needle (a +:+ b) = true.
Proof.
  rewrite !contains_iff. intros (pre & post & ->).
  exists (a +:+ pre), post. by rewrite !app_assoc.
Qed.

Lemma contains_trans a b c :
  contains a b = true -> contains b c = true -> contains a c = true.
Proof.
  rewrite !contains_iff. intros (p1 & q1 & ->) (p2 & q2 & ->).
  exists (p2 +:+ p1), (q1 +:+ q2). by rewrite !app_assoc.
Qed.

Lemma contains_false_startswith needle s :
  contains needle s = false -> startswith needle s = false.
Proof.
  intros Hc. destruct (startswith needle s) eqn:Hs; [|done].
  apply startswith_contains in Hs. congruence.
Qed.

Lemma contains_false_tail needle c s :
  contains needle (String c s) = false -> contains needle s = false.
Proof. simpl. intros Hc. by apply orb_false_iff in Hc as [_ Hc]. Qed.



End TextMore.

(** ** The blocks of [re.split] *)

Module SplitFacts.
Import Text TextFacts TextMore.

Lemma re_split_from_cons cur c s :
  re_split_from cur (String c s) =
  if startswith "====" (String c s)
  then String.rev cur :: re_split_from "" (after_delimiter (String c s))
  else re_split_from (String c cur) s.
Proof.
  simp re_split_from.
  destruct (startswith "====" (String c s)); simpl; reflexivity.
Qed.

(** The piece being read only prefixes the first block. *)
Lemma re_split_from_prepend s : forall cur,
  re_split_from cur s =
  match re_split_from "" s with
  | [] => []
  | b :: bs => (String.rev cur +:+ b) :: bs
  end.
Proof.
  induction s as [|c s IH]; intros cur.
  - simp re_split_from. by rewrite app_empty_r.
  - rewrite !re_split_from_cons.
    destruct (startswith "====" (String c s)); [by rewrite app_empty_r|].
    rewrite (IH (String c cur)), (IH (String c "")).
    destruct (re_split_from "" s) as [|b bs]; [done|].
    by rewrite rev_cons, app_assoc.
Qed.

Lemma re_split_cons c s :
  re_split (String c s) =
  if startswith "====" (String c s)
  then "" :: re_split (after_delimiter (String c s))
  else match re_split s with
       | [] => []
       | b :: bs => String c b :: bs
       end.
Proof.
  unfold re_split. rewrite re_split_from_cons.
  destruct (startswith "====" (String c s)); [done|].
  rewrite re_split_from_prepend. by destruct (re_split_from "" s).
Qed.

Lemma lstrip_suffix s : exists spaces, s = spaces +:+ lstrip s.
Proof.
  induction s as [|c s [spaces IH]]; [by exists ""|]. simpl.
  destruct (isspace c); [|by exists ""].
  exists (String c spaces). by rewrite app_cons, <- IH.
Qed.

(** After a delimiter and the spaces that follow it, less text is left. *)
Lemma after_delimiter_suffix s :
  startswith "====" s = true ->
  exists spaces, s = "====" +:+ spaces +:+ after_delimiter s.
Proof.
  intros Hs. apply startswith_iff in Hs as [post ->].
  unfold after_delimiter. change (drop 4 ("====" +:+ post)) with post.
  destruct (lstrip_suffix post) as [spaces Hspaces].
  exists spaces. by rewrite <- Hspaces.
Qed.

(** What [re.split] returns: a first block that starts the text, and
    further blocks, each a part of the text that starts with no space; no
    block holds the delimiter. *)
Lemma re_split_blocks s :
  exists b bs,
    re_split s = b :: bs /\
    (exists rest, s = b +:+ rest) /\
    contains "====" b = false /\
    Forall (fun x => contains "====" x = false /\
                     (forall c, first_char x = Some c -> isspace c = false) /\
                     exists pre post, s = pre +:+ x +:+ post) bs.
Proof.
  remember (String.length s) as n eqn:Hn.
  revert s Hn. induction (lt_wf n) as [n _ IH]. intros s ->.
  destruct s as [|c s].
  - exists "", []. repeat split; [by exists ""|constructor].
  - rewrite re_split_cons.
    destruct (startswith "====" (String c s)) eqn:Hmatch.
    + destruct (after_delimiter_suffix _ Hmatch) as [spaces Hsplit].
      destruct (IH (String.length (after_delimiter (String c s))))
        with (s := after_delimiter (String c s))
        as (b & bs & -> & [rest Hrest] & Hb & Hbs); [|done|].
      { rewrite Hsplit at 2. rewrite !string_length_app. simpl. lia. }
      exists "", (b :: bs). split; [done|]. split; [by exists (String c s)|].
      split; [done|]. constructor.
      * split; [done|]. split.
        -- intros x Hx. apply (first_char_lstrip (drop 4 (String c s))).
           fold (after_delimiter (String c s)). rewrite Hrest.
           destruct b; [done|]. by rewrite app_cons.
        -- exists ("====" +:+ spaces), rest.
           rewrite Hsplit at 1. by rewrite Hrest, !app_assoc.
      * eapply Forall_impl; [exact Hbs|]. intros x (Hx1 & Hx2 & pre & post & Hx3).
        split; [done|]. split; [done|].
        exists ("====" +:+ spaces +:+ pre), post.
        rewrite Hsplit at 1. by rewrite Hx3, !app_assoc.
    + destruct (IH (String.length s)) with (s := s)
        as (b & bs & -> & [rest Hrest] & Hb & Hbs); [simpl; lia|done|].
      exists (String c b), bs. split; [done|].
      split; [exists rest; by rewrite app_cons, <- Hrest|]. split.
      * cbn [contains]. rewrite Hb, orb_false_r.
        destruct (startswith "====" (String c b)) eqn:Hhead; [|done].
        apply (startswith_app _ _ rest) in Hhead.
        rewrite app_cons, <- Hrest in Hhead. congruence.
      * eapply Forall_impl; [exact Hbs|]. intros x (Hx1 & Hx2 & pre & post & Hx3).
        split; [done|]. split; [done|].
        exists (String c pre), post. by rewrite app_cons, <- Hx3.
Qed.

(** Every block is a part of the text. *)
Lemma re_split_substring s block :
  block ∈ re_split s -> exists pre post, s = pre +:+ block +:+ post.
Proof.
  destruct (re_split_blocks s) as (b & bs & -> & [rest Hrest] & _ & Hbs).
  intros Hin. apply elem_of_cons in Hin as [->|Hin].
  - exists "", rest. by rewrite app_empty_l.
  - rewrite Forall_forall in Hbs. by destruct (Hbs _ Hin) as (_ & _ & Hsub).
Qed.

(** A text without delimiter is its own single block. *)
Lemma re_split_from_no_delimiter s : forall cur,
  contains "====" s = false -> re_split_from cur s = [String.rev cur +:+ s].
Proof.
  induction s as [|c s IH]; intros cur Hs.
  - simp re_split_from. by rewrite app_empty_r.
  - rewrite re_split_from_cons, (contains_false_startswith _ _ Hs).
    rewrite IH by (by eapply contains_false_tail).
    by rewrite rev_cons, app_assoc.
Qed.

End SplitFacts.

(** ** More about the response parser *)

Module ParserMore.
Import Text TextFacts TextMore SplitFacts Parser ParserFacts.

Lemma parse_block_length block : (length (parse_block [] block) <= 1)%nat.
Proof.
  destruct (parse_block_cases block) as [[-> _]|(t & -> & _)]; simpl; lia.
Qed.

Lemma bind_length_le {A B} (f : A -> list B) (l : list A) :
  (forall x, length (f x) <= 1)%nat -> (length (l ≫= f) <= length l)%nat.
Proof.
  intros Hf. induction l as [|x l IH]; [done|].
  rewrite bind_cons, length_app. specialize (Hf x). simpl. lia.
Qed.

(** X1. The parser returns at most one pair per ["===="]-delimited block
    of the text. *)
Theorem parse_variants_length (text : string) :
  (length (parse_variants text) <= length (re_split text))%nat.
Proof.
  rewrite parse_variants_bind. apply bind_length_le, parse_block_length.
Qed.

Lemma parse_variants_no_marker (text : string) :
  contains "Variant:" text = false \/ contains "Reasoning:" text = false ->
  parse_variants text = [].
Proof.
  intros Hmissing. rewrite parse_variants_bind.
  assert (forall block, block ∈ re_split text -> parse_block [] block = []) as Hnone.
  { intros block Hin. apply re_split_substring in Hin as (pre & post & Hsplit).
    assert (contains block text = true) as Hsub.
    { apply contains_iff. by exists pre, post. }
    unfold parse_block.
    destruct (contains "Variant:" block) eqn:Hv; [|done].
    destruct (contains "Reasoning:" block) eqn:Hr; [|done].
    pose proof (contains_trans _ _ _ Hv Hsub).
    pose proof (contains_trans _ _ _ Hr Hsub).
    destruct Hmissing; congruence. }
  induction (re_split text) as [|block blocks IH]; [done|].
  rewrite bind_cons, (Hnone block) by (by left).
  apply IH. intros b Hb. apply Hnone. by right.
Qed.

(** X2. A text that lacks one of the two markers yields no pair: no
    block of it can hold both. *)
Theorem parse_variants_needs_markers (text : string) :
  contains "Variant:" text = false \/ contains "Reasoning:" text = false ->
  parse_variants text = [].
Proof. apply parse_variants_no_marker. Qed.

(** A reply with delimiters and a reasoning, but no variant marker. *)
Lemma parse_variants_needs_markers_witness :
  parse_variants ("====" +:+ LF +:+ "Reasoning: only thoughts" +:+ LF +:+ "====") = [].
Proof.
  apply parse_variants_needs_markers. left. reflexivity.
Defined.


(** X4. A text without ["===="] is a single block: the parser treats the
    whole text as one block. *)
Theorem no_delimiter_single_block (text : string) :
  contains "====" text = false ->
  re_split text = [text] /\ parse_variants text = parse_block [] text.
Proof.
  intros Hnone.
  assert (re_split text = [text]) as Hsplit.
  { unfold re_split. rewrite re_split_from_no_delimiter by done.
    by rewrite app_empty_l. }
  split; [done|]. rewrite parse_variants_bind, Hsplit. apply bind_singleton.
Qed.

(** A reply that forgot the delimiters is still parsed. *)
Lemma no_delimiter_single_block_witness :
  let text := "Reasoning: shorter" +:+ LF +:+ "Variant: Say it briefly." in
  re_split text = [text] /\ parse_variants text = parse_block [] text.
Proof.
  intros text. apply no_delimiter_single_block. reflexivity.
Defined.

(** *** The reasoning pattern *)








End ParserMore.

(** ** A reply in the format of the templates parses back *)

Module RoundTrip.
Import Text TextFacts TextMore SplitFacts Parser ParserFacts ParserMore Format.

(** *** Stripping *)

















(** *** Lines *)





(** *** The matchers, forwards *)




(** *** The reasoning of a formatted block *)





(** *** One formatted block *)












(** *** A whole reply *)









End RoundTrip.

(** ** More about the chunk generator *)

Module ChunkMore.
Import Text TextFacts TextMore Parser ParserFacts ParserMore Format RoundTrip.
Import Runtime RuntimeFacts Chunk ChunkFacts.
Local Open Scope py_scope.

Lemma submseteq_NoDup {A} (l k : list A) : l ⊆+ k -> NoDup k -> NoDup l.
Proof.
  intros Hsub Hk. apply submseteq_Permutation in Hsub as [k' Hperm].
  rewrite Hperm in Hk. by apply NoDup_app in Hk as [Hl _].
Qed.

(** The hint pools hold no hint twice. *)
Lemma transformations_for_NoDup difficulty : NoDup (transformations_for difficulty).
Proof.
  unfold transformations_for.
  destruct (TRANSFORMATIONS_BY_DIFFICULTY !! lower difficulty) as [pool|] eqn:Hpool;
    simpl.
  - unfold TRANSFORMATIONS_BY_DIFFICULTY in Hpool. simpl in Hpool.
    repeat (apply lookup_insert_Some in Hpool as [[_ <-]|[_ Hpool]];
            [apply (bool_decide_unpack _); vm_compute; exact I|]).
    by rewrite lookup_empty in Hpool.
  - apply NoDup_singleton.
Qed.

Section with_env.
Context `{Env}.

(** Taking [pool[j]] and moving the last item in play into its place
    leaves the other items in play. *)
Lemma pool_step {A} (pool : list A) (left j : nat) x y :
  (j < left)%nat ->
  pool !! j = Some x -> pool !! (left - 1)%nat = Some y ->
  take left pool ≡ₚ x :: take (left - 1) (<[j := y]> pool).
Proof.
  intros Hj Hx Hy. destruct left as [|m]; [lia|].
  replace (S m - 1)%nat with m in * by lia.
  rewrite (take_S_r pool m y Hy).
  destruct (decide (j = m)) as [->|Hne].
  - assert (x = y) as -> by congruence.
    rewrite list_insert_id by done. by rewrite Permutation_app_comm.
  - rewrite take_insert_lt by lia.
    assert (take m pool !! j = Some x) as Hl.
    { rewrite lookup_take_lt by lia. done. }
    rewrite insert_take_drop by (by eapply lookup_lt_Some).
    rewrite <- (take_drop_middle (take m pool) j x Hl) at 1.
    generalize (take j (take m pool)) (skipn (S j) (take m pool)). intros front back.
    rewrite <- !Permutation_middle. simpl. rewrite app_nil_r.
    apply Permutation_swap.
Qed.

(** The selection loop draws without replacement. *)
Lemma sample_loop_submseteq {A} (k : nat) : forall (left : nat) (pool : list A) w chosen w',
  (k <= left)%nat -> (left <= length pool)%nat ->
  sample_loop k left pool w = Returns chosen w' ->
  chosen ⊆+ take left pool.
Proof.
  induction k as [|k IH]; intros left pool w chosen w' Hk Hleft.
  - intros [= <- _]. apply submseteq_nil_l.
  - cbn [sample_loop]. intros Hloop.
    apply bind_inv in Hloop as (j & w1 & Hj & Hloop).
    destruct (randbelow_returns left w) as (j' & Hj' & Hlt).
    rewrite Hj in Hj'. injection Hj' as <- _.
    destruct (pool !! j) as [x|] eqn:Hx; [|done].
    destruct (pool !! (left - 1)%nat) as [y|] eqn:Hy; [|done].
    apply bind_inv in Hloop as (rest & w2 & Hrest & [= <- _]).
    apply IH in Hrest; [|lia|rewrite length_insert; lia].
    apply submseteq_cons_l. eexists. split; [|exact Hrest].
    apply pool_step; [lia|done|done].
Qed.

Lemma choose_transforms_distinct difficulty w chosen w' :
  choose_transforms difficulty w = Returns chosen w' ->
  NoDup chosen /\ chosen ⊆+ transformations_for difficulty.
Proof.
  intros Hchosen.
  destruct (choice_returns (seq 3 4) w) as (num & Hnum & _); [done|].
  assert (chosen ⊆+ transformations_for difficulty) as Hsub.
  { unfold choose_transforms in Hchosen.
    rewrite (bind_returns _ _ _ _ _ Hnum) in Hchosen.
    unfold sample in Hchosen.
    destruct (Nat.leb_spec (num `min` length (transformations_for difficulty))
                (length (transformations_for difficulty))); [|lia].
    apply sample_loop_submseteq in Hchosen; [|lia|lia].
    rewrite take_ge in Hchosen by lia. done. }
  split; [|done]. eapply submseteq_NoDup; [exact Hsub|].
  apply transformations_for_NoDup.
Qed.

(** X7. The hints drawn for a chunk are pairwise distinct hints of the
    pool of the difficulty: the sample is taken without replacement. *)
Theorem chosen_hints_distinct (difficulty : string) (w : World) :
  exists chosen w',
    choose_transforms difficulty w = Returns chosen w' /\
    NoDup chosen /\
    chosen ⊆+ transformations_for difficulty.
Proof.
  destruct (choose_transforms_returns difficulty w)
    as (num & chosen & w' & _ & _ & Hchosen & _ & _).
  exists chosen, w'. split; [done|]. by eapply choose_transforms_distinct.
Qed.

Lemma transformations_for_length difficulty :
  (lower difficulty ∈ ["easier"; "equivalent"; "harder"] ->
     (4 <= length (transformations_for difficulty) <= 5)%nat) /\
  (lower difficulty ∉ ["easier"; "equivalent"; "harder"] ->
     length (transformations_for difficulty) = 1%nat).
Proof.
  split.
  - unfold transformations_for. intros Hin.
    repeat (apply elem_of_cons in Hin as [->|Hin]; [vm_compute; lia|]).
    by apply elem_of_nil in Hin.
  - intros Hout. by rewrite transformations_for_unknown.
Qed.

(** X8. A chunk never carries six hints, although the drawn size goes up
    to six: the pools hold four or five hints, so a known difficulty
    gets between three and five hints, and an unknown one exactly one. *)
Theorem hint_count_range (difficulty : string) (w : World)
    (chosen : list string) (w' : World) :
  choose_transforms difficulty w = Returns chosen w' ->
  (1 <= length chosen <= 5)%nat /\
  (lower difficulty ∈ ["easier"; "equivalent"; "harder"] ->
     (3 <= length chosen <= length (transformations_for difficulty))%nat) /\
  (lower difficulty ∉ ["easier"; "equivalent"; "harder"] -> length chosen = 1%nat).
Proof.
  intros Hchosen.
  destruct (choose_transforms_returns difficulty w)
    as (num & chosen' & w1 & _ & Hnum & Hret & Hlen & _).
  rewrite Hchosen in Hret. injection Hret as <- _.
  destruct (transformations_for_length difficulty) as [Hknown Hunknown].
  destruct (decide (lower difficulty ∈ ["easier"; "equivalent"; "harder"]))
    as [Hin|Hout].
  - specialize (Hknown Hin). split; [lia|]. split; [lia|done].
  - specialize (Hunknown Hout). split; [lia|]. split; [done|lia].
Qed.

(** Every pair of the parser has a reasoning and a non-empty variant. *)
Lemma parse_variants_pairs text :
  Forall (fun pair => exists t, pb_variant pair = Some t /\ t <> "" /\
                                is_Some (pb_reasoning pair))
         (parse_variants text).
Proof.
  rewrite parse_variants_bind. apply Forall_bind, Forall_forall. intros block _.
  unfold compose.
  destruct (parse_block_cases block) as [[Heq _]|(t & Heq & _ & _ & _ & Hne)];
    rewrite Heq; [constructor|].
  constructor; [|constructor]. exists t. by repeat split.
Qed.

Lemma omap_id_Some {A} (l : list A) : omap id (Some <$> l) = l.
Proof. induction l as [|x l IH]; csimpl; [done|]. by f_equal. Qed.

(** The builder on pairs that have a variant: one record for each. *)
Lemma gather_builders_exact prompt difficulty chosen pairs : forall w,
  Forall (fun pair => exists t, pb_variant pair = Some t /\ t <> "" /\
                                is_Some (pb_reasoning pair)) pairs ->
  exists records w',
    gather (process_single_variant prompt difficulty <$>
              ((fun v => mkParsedBlock (pb_reasoning v) (pb_variant v) (Some chosen))
                 <$> pairs)) w
      = Returns (Some <$> records) w' /\
    Forall2 (fun pair r =>
               pb_variant pair = Some (variant r) /\
               reasoning r = pb_reasoning pair /\
               original r = prompt /\
               requested_difficulty r = difficulty /\
               transformations_used r = chosen /\
               evaluation r = None /\
               exists t, timestamp r = t +:+ "Z") pairs records.
Proof.
  induction pairs as [|pair pairs IH]; intros w Hpairs.
  - exists [], w. split; [done|constructor].
  - apply Forall_cons in Hpairs as [(t & Ht & Hne & _) Hpairs].
    rewrite !fmap_cons. cbn [gather].
    destruct t as [|c t]; [done|].
    assert (process_single_variant prompt difficulty
              (mkParsedBlock (pb_reasoning pair) (pb_variant pair) (Some chosen)) w
            = Returns (Some {|
                original := prompt;
                requested_difficulty := difficulty;
                variant := String c t;
                reasoning := pb_reasoning pair;
                transformations_used := chosen;
                evaluation := None;
                timestamp := (utcnow_isoformat w).1 +:+ "Z" |})
              (utcnow_isoformat w).2) as Hstep.
    { unfold process_single_variant. cbn [pb_variant pb_reasoning
        pb_transformations_used]. rewrite Ht.
      by rewrite (bind_returns _ _ _ _ _ (now_isoformat_returns w)). }
    rewrite (bind_returns _ _ _ _ _ Hstep).
    destruct (IH (utcnow_isoformat w).2 Hpairs) as (records & w' & Hrest & Hall).
    rewrite (bind_returns _ _ _ _ _ Hrest).
    eexists (_ :: records), w'. split; [reflexivity|].
    constructor; [|done]. simpl. repeat split; try done. by eexists.
Qed.

Lemma records_of_response_exact (prompt difficulty : string) (chosen : list string)
    (response_text : string) (w : World) :
  exists records w',
    records_of_response prompt difficulty chosen response_text w = Returns records w' /\
    Forall2 (fun pair r =>
               pb_variant pair = Some (variant r) /\
               reasoning r = pb_reasoning pair /\
               original r = prompt /\
               requested_difficulty r = difficulty /\
               transformations_used r = chosen /\
               evaluation r = None /\
               exists t, timestamp r = t +:+ "Z")
            (parse_variants response_text) records.
Proof.
  unfold records_of_response.
  destruct (gather_builders_exact prompt difficulty chosen
              (parse_variants response_text) w (parse_variants_pairs response_text))
    as (records & w' & Hgather & Hall).
  exists records, w'. rewrite (bind_returns _ _ _ _ _ Hgather).
  by rewrite omap_id_Some.
Qed.

(** X9. From the reply on, the chunk generator never raises and returns
    exactly one record per parsed pair, in parse order, with the variant
    and the reasoning of the pair, the prompt, the difficulty and the
    hints of the chunk, no evaluation and a timestamp that ends with Z:
    the filter on missing records drops nothing. *)
Theorem records_match_pairs (prompt difficulty : string) (chosen : list string)
    (response_text : string) (w : World) :
  exists records w',
    records_of_response prompt difficulty chosen response_text w = Returns records w' /\
    Forall2 (fun pair r =>
               pb_variant pair = Some (variant r) /\
               reasoning r = pb_reasoning pair /\
               original r = prompt /\
               requested_difficulty r = difficulty /\
               transformations_used r = chosen /\
               evaluation r = None /\
               exists t, timestamp r = t +:+ "Z")
            (parse_variants response_text) records.
Proof. apply records_of_response_exact. Qed.

(** What every record of a chunk looks like. *)
Lemma generate_variant_chunk_fields prompt difficulty count w records w' :
  generate_variant_chunk prompt difficulty count w = Returns records w' ->
  Forall (fun r => original r = prompt /\
                   requested_difficulty r = difficulty /\
                   variant r <> "" /\
                   is_Some (reasoning r) /\
                   evaluation r = None /\
                   NoDup (transformations_used r) /\
                   transformations_used r ⊆+ transformations_for difficulty /\
                   exists t, timestamp r = t +:+ "Z") records.
Proof.
  unfold generate_variant_chunk. intros Hchunk.
  apply bind_inv in Hchunk as (request & w1 & Hreq & Hchunk).
  apply bind_inv in Hchunk as (text & w2 & _ & Hrecords).
  assert (NoDup request.1.1 /\ request.1.1 ⊆+ transformations_for difficulty)
    as [Hnd Hsub].
  { unfold compose_request in Hreq.
    apply bind_inv in Hreq as (chosen & w3 & Hchosen & Hreq).
    apply bind_inv in Hreq as (t1 & w4 & _ & Hreq).
    apply bind_inv in Hreq as (t2 & w5 & _ & [= <- _]).
    by eapply choose_transforms_distinct. }
  destruct (records_of_response_exact prompt difficulty request.1.1 text w2)
    as (records' & w'' & Heq & Hall).
  rewrite Hrecords in Heq. injection Heq as <- _.
  pose proof (parse_variants_pairs text) as Hpairs.
  clear Hrecords Hreq.
  revert Hpairs. induction Hall as [|pair r pairs records Hr _ IH]; [constructor|].
  intros Hpairs. apply Forall_cons in Hpairs as [(t & Ht & Hne & Hsome) Hpairs].
  constructor; [|by apply IH].
  destruct Hr as (Hv & Hrsn & Ho & Hd & Htu & He & Hts).
  rewrite Htu, Hrsn. repeat split; try done. congruence.
Qed.



(** *** The instruction text *)

Lemma contains_refl x : contains x x = true.
Proof. apply contains_iff. exists "", "". by rewrite app_empty_l, app_empty_r. Qed.

Lemma contains_concat sep l x :
  x ∈ l -> contains x (String.concat sep l) = true.
Proof.
  induction l as [|a l IH]; intros Hin; [by apply elem_of_nil in Hin|].
  cbn [String.concat]. destruct l as [|b l].
  - apply list_elem_of_singleton in Hin as ->. apply contains_refl.
  - apply elem_of_cons in Hin as [->|Hin].
    + apply contains_app_l, contains_refl.
    + by do 2 apply contains_app_r; apply IH.
Qed.

Ltac find_elem :=
  repeat first [apply list_elem_of_here | apply list_elem_of_further].

(** Both templates hold the five texts they are given. *)
Lemma template_options_mention prompt difficulty count transforms_text personas_str text :
  text ∈ template_options prompt difficulty count transforms_text personas_str ->
  Forall (fun part => contains part text = true)
         [prompt; difficulty; pretty count; transforms_text; personas_str].
Proof.
  unfold template_options. intros Hin.
  apply elem_of_cons in Hin as [->|Hin];
    [|apply list_elem_of_singleton in Hin as ->];
    repeat constructor; apply contains_concat; find_elem.
Qed.

(** X11. The request of a chunk is always composed, and its instruction
    text holds the base prompt, the difficulty, the count in decimal, the
    persona list and every hint drawn for the chunk. *)
Theorem instruction_mentions_inputs (prompt difficulty : string) (count : Z) (w : World) :
  exists request w',
    compose_request prompt difficulty count w = Returns request w' /\
    let text := request.1.2 in
    contains prompt text = true /\
    contains difficulty text = true /\
    contains (pretty count) text = true /\
    contains (join ", " PERSONAS) text = true /\
    Forall (fun hint => contains hint text = true) request.1.1.
Proof.
  unfold compose_request, get_random_prompt_template.
  destruct (choose_transforms_returns difficulty w) as (n & chosen & w1 & _ & _ & Hc & _).
  rewrite (bind_returns _ _ _ _ _ Hc).
  edestruct (choice_returns (template_options prompt difficulty count
               (join ", " chosen) (join ", " PERSONAS)) w1) as (text & Ht & Hin); [done|].
  rewrite (bind_returns _ _ _ _ _ Ht).
  edestruct (choice_returns [T0_8; T1_0; T1_2; T1_4] (rand_raw w1).2) as (t & Htemp & _);
    [done|].
  rewrite (bind_returns _ _ _ _ _ Htemp).
  eexists _, _. split; [reflexivity|]. cbn [fst snd].
  apply template_options_mention in Hin.
  rewrite !Forall_cons in Hin.
  destruct Hin as (Hp & Hd & Hn & Hh & Hs & _).
  repeat split; try done.
  apply Forall_forall. intros hint Hhint.
  eapply contains_trans; [|exact Hh]. by apply contains_concat.
Qed.

End with_env.

(** The pool of five hints, with a scripted draw. *)
Lemma hint_count_range_witness :
  exists chosen w',
    choose_transforms (H := Scripted.env) "harder" (Scripted.mkWorld [3] [] 0)
      = Returns chosen w' /\
    (1 <= length chosen <= 5)%nat.
Proof.
  destruct (choose_transforms (H := Scripted.env) "harder" (Scripted.mkWorld [3] [] 0))
    as [chosen w'|e] eqn:Hrun; [|by vm_compute in Hrun].
  exists chosen, w'. split; [done|].
  exact (proj1 (hint_count_range (H := Scripted.env) "harder" _ chosen w' Hrun)).
Defined.


End ChunkMore.

(** ** The orchestrator, further *)

Module OrchestratorMore.
Import Text Parser Runtime RuntimeFacts Chunk ChunkFacts Orchestrator OrchestratorFacts.
Import Bounds.
Local Open Scope py_scope.

(** *** What is asked of the service *)

Lemma sum_replicate (k : nat) (c : Z) :
  foldr Z.add 0%Z (replicate k c) = (Z.of_nat k * c)%Z.
Proof. induction k as [|k IH]; [done|]. cbn [replicate foldr]. rewrite IH. lia. Qed.

Lemma sum_app (l1 l2 : list Z) :
  foldr Z.add 0%Z (l1 ++ l2) = (foldr Z.add 0 l1 + foldr Z.add 0 l2)%Z.
Proof. induction l1 as [|a l1 IH]; [done|]. cbn [app foldr]. rewrite IH. lia. Qed.

Lemma chunk_counts_sum total : foldr Z.add 0%Z (chunk_counts total) = Z.max 0 total.
Proof.
  destruct (Z.lt_ge_cases 0 total) as [Hpos|Hle].
  - destruct (chunk_counts_pos total Hpos) as [-> _].
    rewrite sum_app, sum_replicate. cbn [foldr]. lia.
  - rewrite chunk_counts_nonpos by lia. cbn [foldr]. lia.
Qed.

Lemma chunk_counts_length total :
  length (chunk_counts total) = Z.to_nat (ceil_div total 10).
Proof. unfold chunk_counts, py_range. by rewrite !length_fmap, length_seq. Qed.

(** X12. The counts asked of the service add up, for every difficulty
    of the list, to three times [num_variants], or to nothing when that
    is negative; and every difficulty gets the same number of chunks,
    the total divided by ten and rounded up. *)
Theorem requested_counts (difficulties : list string) (num_variants : Z) :
  foldr Z.add 0%Z (snd <$> plan_tasks difficulties num_variants) =
    (Z.of_nat (length difficulties) * Z.max 0 (num_variants * 3))%Z /\
  length (plan_tasks difficulties num_variants) =
    (length difficulties * Z.to_nat (ceil_div (num_variants * 3) 10))%nat.
Proof.
  unfold plan_tasks, buffer_multiplier.
  induction difficulties as [|d ds [IHsum IHlen]]; [done|].
  rewrite bind_cons, fmap_app, sum_app, length_app, IHsum, IHlen.
  rewrite <- list_fmap_compose, length_fmap, chunk_counts_length.
  rewrite (list_fmap_ext _ id (chunk_counts (num_variants * 3)))
    by (intros; reflexivity).
  rewrite list_fmap_id, chunk_counts_sum. cbn [length]. split; lia.
Qed.

Section with_env.
Context `{Env}.

(** *** Nothing to do *)

Lemma slice_to_nil {A} n : slice_to (@nil A) n = [].
Proof. unfold slice_to. destruct (n <? 0)%Z; apply take_nil. Qed.

Lemma top_level_nothing base_prompt difficulties num_variants w :
  (num_variants <= 0)%Z \/ difficulties = [] ->
  top_level base_prompt difficulties num_variants w = Returns [] w.
Proof.
  intros Hnone.
  assert (plan_tasks difficulties num_variants = []) as Hplan.
  { destruct Hnone as [Hle| ->]; [by apply plan_tasks_nonpos|done]. }
  pose proof (top_level_cases base_prompt difficulties num_variants w) as Hcases.
  rewrite Hplan in Hcases. cbn [gather_chunks fmap list_fmap gather] in Hcases.
  unfold ret in Hcases. rewrite Hcases. f_equal.
  clear. induction difficulties as [|d ds IH]; [done|].
  rewrite bind_cons, IH, app_nil_r. unfold accepted_for, tagged. cbn.
  apply slice_to_nil.
Qed.

(** X13. When nothing is asked for, because [num_variants] is zero or
    negative or because no difficulty is given, the run calls nothing,
    leaves the world as it is and returns the empty list, at any depth. *)
Theorem nothing_requested (base_prompt : string) (difficulties : list string)
    (num_variants recursion_depth : Z) (w : World) :
  (num_variants <= 0)%Z \/ difficulties = [] ->
  process_prompt base_prompt difficulties num_variants recursion_depth w = Returns [] w.
Proof.
  intros Hnone. unfold process_prompt. rewrite process_prompt_levels_unfold.
  rewrite (bind_returns _ _ _ _ _ (top_level_nothing base_prompt _ _ w Hnone)).
  by destruct (Z.to_nat recursion_depth).
Qed.

(** *** The exact number of top-level records *)

Lemma slice_to_length {A} (l : list A) n :
  (0 <= n)%Z -> length (slice_to l n) = (Z.to_nat n `min` length l)%nat.
Proof. intros Hn. unfold slice_to. destruct (Z.ltb_spec n 0); [lia|]. by rewrite length_take. Qed.

Lemma selection_count_exact (group : string -> list VariantRecord) difficulties d0 :
  NoDup difficulties -> d0 ∈ difficulties ->
  (forall d r, r ∈ group d -> requested_difficulty r = d) ->
  count_difficulty d0 (difficulties ≫= group) = length (group d0).
Proof.
  intros Hds Hin Htag. unfold count_difficulty.
  assert (forall ds, d0 ∉ ds ->
            filter (fun r => requested_difficulty r = d0) (ds ≫= group) = []) as Hnone.
  { intros ds Hnotin. apply filter_none, Forall_forall. intros r Hr Heq.
    apply list_elem_of_bind in Hr as (d & Hr & Hd).
    apply Htag in Hr. congruence. }
  induction Hds as [|d ds Hnotin Hds IH]; [by apply elem_of_nil in Hin|].
  rewrite bind_cons, filter_app, length_app.
  destruct (decide (d = d0)) as [->|Hne].
  - rewrite (Hnone ds Hnotin), filter_all; [simpl; lia|].
    apply Forall_forall. intros r Hr. by apply Htag.
  - rewrite (filter_none _ (group d)).
    + apply IH. apply elem_of_cons in Hin as [Heq|Hin]; [congruence|done].
    + apply Forall_forall. intros r Hr Heq. apply Htag in Hr. congruence.
Qed.

Lemma accepted_for_tags base_prompt tasks w chunks w' d r :
  gather_chunks base_prompt tasks w = Returns chunks w' ->
  r ∈ accepted_for d (tagged tasks chunks) ->
  (d, r) ∈ tagged tasks chunks /\ requested_difficulty r = d.
Proof.
  intros Hgather Hr. unfold accepted_for in Hr.
  apply list_elem_of_fmap in Hr as ([d' r'] & -> & Hin).
  apply list_elem_of_filter in Hin as [Htag Hin]. simpl in Htag. subst d'.
  apply first_occurrences_subseteq in Hin. split; [done|].
  pose proof (gather_chunks_records _ _ _ _ _ Hgather) as Hall.
  rewrite Forall_forall in Hall. by destruct (Hall _ Hin) as [Hd _].
Qed.

(** X14. With a duplicate-free list of difficulties, the top-level
    records hold, for each difficulty of the list, exactly the smaller
    of [num_variants] and the number of records accepted for it: the
    truncation drops a record only when more than [num_variants] were
    accepted. *)
Theorem top_level_count_exact (base_prompt : string) (difficulties : list string)
    (num_variants : Z) (w : World) (top : list VariantRecord) (w1 : World) :
  NoDup difficulties ->
  top_level base_prompt difficulties num_variants w = Returns top w1 ->
  exists chunks,
    gather_chunks base_prompt (plan_tasks difficulties num_variants) w
      = Returns chunks w1 /\
    forall d, d ∈ difficulties ->
      count_difficulty d top =
      (Z.to_nat num_variants `min`
         length (accepted_for d (tagged (plan_tasks difficulties num_variants) chunks)))%nat.
Proof.
  intros Hds Htop.
  pose proof (top_level_cases base_prompt difficulties num_variants w) as Hcases.
  destruct (gather_chunks _ _ w) as [chunks w2|e] eqn:Hgather; [|congruence].
  rewrite Htop in Hcases. injection Hcases as -> ->.
  exists chunks. split; [done|]. intros d Hd.
  rewrite (selection_count_exact
             (fun d => slice_to (accepted_for d
                         (tagged (plan_tasks difficulties num_variants) chunks))
                         num_variants)); [|done|done|].
  - destruct (Z.le_gt_cases 0 num_variants) as [Hpos|Hneg].
    + by apply slice_to_length.
    + apply gather_chunks_length in Hgather.
      rewrite plan_tasks_nonpos in * by lia.
      destruct chunks; [|done]. unfold accepted_for, tagged. cbn.
      rewrite slice_to_nil. simpl. lia.
  - intros d' r Hr. apply slice_to_subseteq in Hr.
    by eapply accepted_for_tags in Hr as [_ Hr].
Qed.

(** *** Where an exception comes from *)



(** *** The records of a run *)

Lemma sub_runs_elem depth difficulties num_variants parents w subs w' r :
  sub_runs depth difficulties num_variants parents w subs w' ->
  r ∈ mjoin subs ->
  exists parent sub w0 w1,
    parent ∈ parents /\ sub ∈ subs /\ r ∈ sub /\
    process_prompt (variant parent) difficulties num_variants depth w0 = Returns sub w1.
Proof.
  induction 1 as [w|parent parents w sub w1 subs w2 Hsub _ IH].
  - intros Hin. by apply elem_of_nil in Hin.
  - cbn [mjoin list_join]. intros Hin. apply elem_of_app in Hin as [Hin|Hin].
    + exists parent, sub, w, w1. repeat split; [by left|by left|done|done].
    + destruct (IH Hin) as (p & s & w0 & w3 & Hp & Hs & Hr & Hrun).
      exists p, s, w0, w3. repeat split; [by right|by right|done|done].
Qed.

Lemma gather_chunks_fields base_prompt tasks : forall w chunks w',
  gather_chunks base_prompt tasks w = Returns chunks w' ->
  Forall (fun item =>
            is_Some (reasoning item.2) /\
            evaluation item.2 = None /\
            NoDup (transformations_used item.2) /\
            transformations_used item.2 ⊆+ transformations_for item.1 /\
            exists t, timestamp item.2 = t +:+ "Z") (tagged tasks chunks).
Proof.
  unfold gather_chunks.
  induction tasks as [|task tasks IH]; intros w chunks w'.
  - simpl. intros [= <- _]. constructor.
  - rewrite fmap_cons. cbn [gather]. intros Hg.
    apply bind_inv in Hg as (chunk & w1 & Hchunk & Hg).
    apply bind_inv in Hg as (rest & w2 & Hrest & [= <- _]).
    rewrite tagged_cons. apply Forall_app. split; [|by eapply IH].
    apply ChunkMore.generate_variant_chunk_fields in Hchunk.
    apply Forall_fmap. eapply Forall_impl; [exact Hchunk|].
    intros r (_ & _ & _ & Hrest'). exact Hrest'.
Qed.

Lemma top_level_fields base_prompt difficulties num_variants w top w1 :
  top_level base_prompt difficulties num_variants w = Returns top w1 ->
  Forall (fun r =>
            original r = base_prompt /\
            variant r <> "" /\
            requested_difficulty r ∈ difficulties /\
            is_Some (reasoning r) /\
            evaluation r = None /\
            NoDup (transformations_used r) /\
            transformations_used r ⊆+ transformations_for (requested_difficulty r) /\
            exists t, timestamp r = t +:+ "Z") top.
Proof.
  intros Htop.
  pose proof (top_level_cases base_prompt difficulties num_variants w) as Hcases.
  destruct (gather_chunks _ _ w) as [chunks w2|e] eqn:Hgather; [|congruence].
  rewrite Htop in Hcases. injection Hcases as -> ->.
  apply Forall_forall. intros r Hr.
  apply list_elem_of_bind in Hr as (d & Hr & Hd).
  apply slice_to_subseteq in Hr.
  eapply accepted_for_tags in Hr as [Hin Htag]; [|exact Hgather].
  pose proof (gather_chunks_records _ _ _ _ _ Hgather) as Hall.
  pose proof (gather_chunks_fields _ _ _ _ _ Hgather) as Hall'.
  rewrite Forall_forall in Hall, Hall'.
  destruct (Hall _ Hin) as (_ & Ho & Hv).
  destruct (Hall' _ Hin) as (Hr1 & He & Hnd & Hsub & Ht).
  simpl in *. rewrite Htag. repeat split; done.
Qed.

Lemma run_fields difficulties num_variants levels :
  forall recursion_depth base_prompt w out w',
    Z.to_nat recursion_depth = levels ->
    process_prompt base_prompt difficulties num_variants recursion_depth w
      = Returns out w' ->
    Forall (fun r =>
              variant r <> "" /\
              requested_difficulty r ∈ difficulties /\
              is_Some (reasoning r) /\
              evaluation r = None /\
              NoDup (transformations_used r) /\
              transformations_used r ⊆+ transformations_for (requested_difficulty r) /\
              exists t, timestamp r = t +:+ "Z") out.
Proof.
  induction levels as [|levels IH]; intros depth base_prompt w out w' Hlevels Hrun;
    apply process_prompt_returns in Hrun as (top & w1 & subs & Htop & -> & Hflat & Hrec);
    apply top_level_fields in Htop;
    (apply Forall_app; split;
       [eapply Forall_impl; [exact Htop|]; by intros r (_ & Hrest)|]).
  - by destruct (Hflat ltac:(lia)) as [-> _].
  - specialize (Hrec ltac:(lia)). apply Forall_forall. intros r Hr.
    destruct (sub_runs_elem _ _ _ _ _ _ _ _ Hrec Hr)
      as (parent & sub & w0 & w2 & _ & _ & Hin & Hsub).
    apply IH in Hsub; [|lia]. rewrite Forall_forall in Hsub. by apply Hsub.
Qed.

(** X16. Every record a run returns, at any depth, has a non-empty
    variant, one of the requested difficulties, a reasoning, no
    evaluation, pairwise distinct hints of the pool of its difficulty
    and a timestamp that ends with Z. *)
Theorem returned_records_shape (base_prompt : string) (difficulties : list string)
    (num_variants recursion_depth : Z) (w : World)
    (out : list VariantRecord) (w' : World) :
  process_prompt base_prompt difficulties num_variants recursion_depth w
    = Returns out w' ->
  Forall (fun r =>
            variant r <> "" /\
            requested_difficulty r ∈ difficulties /\
            is_Some (reasoning r) /\
            evaluation r = None /\
            NoDup (transformations_used r) /\
            transformations_used r ⊆+ transformations_for (requested_difficulty r) /\
            exists t, timestamp r = t +:+ "Z") out.
Proof. intros Hrun. by eapply run_fields. Qed.

Lemma run_originals difficulties num_variants levels :
  forall recursion_depth base_prompt w out w',
    Z.to_nat recursion_depth = levels ->
    process_prompt base_prompt difficulties num_variants recursion_depth w
      = Returns out w' ->
    Forall (fun r => original r = base_prompt \/
                     exists parent, parent ∈ out /\ original r = variant parent) out.
Proof.
  induction levels as [|levels IH]; intros depth base_prompt w out w' Hlevels Hrun;
    apply process_prompt_returns in Hrun as (top & w1 & subs & Htop & -> & Hflat & Hrec);
    apply top_level_fields in Htop;
    (apply Forall_app; split;
       [eapply Forall_impl; [exact Htop|]; intros r (Ho & _); by left|]).
  - by destruct (Hflat ltac:(lia)) as [-> _].
  - specialize (Hrec ltac:(lia)). apply Forall_forall. intros r Hr. right.
    destruct (sub_runs_elem _ _ _ _ _ _ _ _ Hrec Hr)
      as (parent & sub & w0 & w2 & Hparent & Hsubs & Hin & Hsub).
    apply IH in Hsub; [|lia]. rewrite Forall_forall in Hsub.
    destruct (Hsub _ Hin) as [Ho|(p & Hp & Ho)].
    + exists parent. split; [|done]. apply elem_of_app. by left.
    + exists p. split; [|done]. apply elem_of_app. right.
      apply list_elem_of_join. by exists sub.
Qed.

(** X17. The [original] of a returned record is the base prompt of the
    call or the variant text of a returned record: the top-level records
    carry the base prompt, and the records of the recursion carry the
    variant their run started from.  Without recursion every record
    carries the base prompt. *)
Theorem originals_linked (base_prompt : string) (difficulties : list string)
    (num_variants recursion_depth : Z) (w : World)
    (out : list VariantRecord) (w' : World) :
  process_prompt base_prompt difficulties num_variants recursion_depth w
    = Returns out w' ->
  Forall (fun r => original r = base_prompt \/
                   exists parent, parent ∈ out /\ original r = variant parent) out /\
  ((recursion_depth <= 0)%Z -> Forall (fun r => original r = base_prompt) out).
Proof.
  intros Hrun. split; [by eapply run_originals|].
  intros Hle.
  apply process_prompt_returns in Hrun as (top & w1 & subs & Htop & -> & Hflat & _).
  destruct (Hflat Hle) as [-> _]. cbn [mjoin list_join]. rewrite app_nil_r.
  apply top_level_fields in Htop. eapply Forall_impl; [exact Htop|].
  by intros r (Ho & _).
Qed.

(** *** The size of a result *)

Lemma bind_length_bounded {A B} (f : A -> list B) (k : nat) (l : list A) :
  (forall x, length (f x) <= k)%nat -> (length (l ≫= f) <= length l * k)%nat.
Proof.
  intros Hf. induction l as [|a l IH]; [done|].
  rewrite bind_cons, length_app. specialize (Hf a). simpl. lia.
Qed.

Lemma top_level_length base_prompt difficulties num_variants w top w1 :
  top_level base_prompt difficulties num_variants w = Returns top w1 ->
  (length top <= Z.to_nat num_variants * length difficulties)%nat.
Proof.
  intros Htop. destruct (Z.le_gt_cases num_variants 0) as [Hle|Hpos].
  - rewrite top_level_nothing in Htop by (by left). injection Htop as <- _. simpl. lia.
  - pose proof (top_level_cases base_prompt difficulties num_variants w) as Hcases.
    destruct (gather_chunks _ _ w) as [chunks w2|e]; [|congruence].
    rewrite Htop in Hcases. injection Hcases as -> ->.
    rewrite Nat.mul_comm. apply bind_length_bounded. intros d.
    rewrite slice_to_length by lia. lia.
Qed.

Lemma sub_runs_length depth difficulties num_variants parents w subs w' bound :
  sub_runs depth difficulties num_variants parents w subs w' ->
  (forall prompt w0 out w1,
     process_prompt prompt difficulties num_variants depth w0 = Returns out w1 ->
     (length out <= bound)%nat) ->
  (length (mjoin subs) <= length parents * bound)%nat.
Proof.
  intros Hruns Hbound.
  induction Hruns as [w|parent parents w sub w1 subs w2 Hsub _ IH]; [done|].
  change (mjoin (sub :: subs)) with (sub ++ mjoin subs).
  rewrite length_app. apply Hbound in Hsub. simpl. lia.
Qed.

Lemma run_length difficulties num_variants levels :
  forall recursion_depth base_prompt w out w',
    Z.to_nat recursion_depth = levels ->
    process_prompt base_prompt difficulties num_variants recursion_depth w
      = Returns out w' ->
    (length out <=
     size_bound (Z.to_nat num_variants * length difficulties) levels)%nat.
Proof.
  induction levels as [|levels IH]; intros depth base_prompt w out w' Hlevels Hrun;
    apply process_prompt_returns in Hrun as (top & w1 & subs & Htop & -> & Hflat & Hrec);
    apply top_level_length in Htop; rewrite length_app; cbn [size_bound].
  - destruct (Hflat ltac:(lia)) as [-> _]. simpl. lia.
  - specialize (Hrec ltac:(lia)).
    eapply sub_runs_length in Hrec; [|intros prompt w0 out w2; apply IH; lia].
    remember (Z.to_nat num_variants * length difficulties)%nat as per_call.
    remember (size_bound per_call levels) as below.
    pose proof (Nat.mul_le_mono_r _ _ below Htop). lia.
Qed.

(** X18. A returned list holds at most [num_variants] records per
    difficulty of the list at the top level, and for each of them at most
    as many as a run with one level less: with [p] the product of
    [num_variants] and the number of difficulties, at most [p] records
    without recursion and [p + p * b] with, [b] being the bound one level
    down. *)
Theorem result_size_bounded (base_prompt : string) (difficulties : list string)
    (num_variants recursion_depth : Z) (w : World)
    (out : list VariantRecord) (w' : World) :
  process_prompt base_prompt difficulties num_variants recursion_depth w
    = Returns out w' ->
  (length out <=
   size_bound (Z.to_nat num_variants * length difficulties)
              (Z.to_nat recursion_depth))%nat.
Proof. intros Hrun. by eapply run_length. Qed.

End with_env.

(** No variant asked for: nothing is returned and no reply is used. *)
Lemma nothing_requested_witness :
  let w := Scripted.mkWorld [] [inr (Scripted.reply "r" "v")] 0 in
  process_prompt (H := Scripted.env) "base" ["easier"; "harder"] 0 2 w = Returns [] w.
Proof.
  intros w. apply (nothing_requested (H := Scripted.env)). left. reflexivity.
Defined.

(** Three distinct variants for one difficulty and two asked for. *)
Lemma top_level_count_exact_witness :
  let text := String.concat ""
                [Scripted.reply "r" "a"; Scripted.reply "r" "b"; Scripted.reply "r" "c"] in
  let w := Scripted.mkWorld [] [inr text] 0 in
  exists top w1 chunks,
    top_level (H := Scripted.env) "base" ["easier"] 2 w = Returns top w1 /\
    gather_chunks (H := Scripted.env) "base" (plan_tasks ["easier"] 2) w
      = Returns chunks w1 /\
    forall d, d ∈ ["easier"] ->
      count_difficulty d top =
      (Z.to_nat 2 `min`
         length (accepted_for d (tagged (plan_tasks ["easier"] 2) chunks)))%nat.
Proof.
  intros text w.
  destruct (top_level (H := Scripted.env) "base" ["easier"] 2 w)
    as [top w1|e] eqn:Hrun; [|by vm_compute in Hrun].
  assert (NoDup ["easier"]) as Hds.
  { apply (bool_decide_unpack _). vm_compute. exact I. }
  destruct (top_level_count_exact (H := Scripted.env) "base" ["easier"] 2 w top w1
              Hds Hrun) as (chunks & Hgather & Hcount).
  by exists top, w1, chunks.
Defined.


(** A run with one level of recursion and one record per level. *)
Lemma returned_records_shape_witness :
  let w := Scripted.mkWorld []
             [inr (Scripted.reply "r1" "v1"); inr (Scripted.reply "r2" "v2")] 0 in
  exists out w',
    process_prompt (H := Scripted.env) "base" ["easier"] 1 1 w = Returns out w' /\
    Forall (fun r =>
              variant r <> "" /\
              requested_difficulty r ∈ ["easier"] /\
              is_Some (reasoning r) /\
              evaluation r = None /\
              NoDup (transformations_used r) /\
              transformations_used r ⊆+ transformations_for (requested_difficulty r) /\
              exists t, timestamp r = t +:+ "Z") out.
Proof.
  intros w.
  destruct (process_prompt (H := Scripted.env) "base" ["easier"] 1 1 w)
    as [out w'|e] eqn:Hrun; [|by vm_compute in Hrun].
  exists out, w'. split; [done|].
  exact (returned_records_shape (H := Scripted.env) "base" ["easier"] 1 1 w out w' Hrun).
Defined.

(** The same run: the second record starts from the variant of the first. *)
Lemma originals_linked_witness :
  let w := Scripted.mkWorld []
             [inr (Scripted.reply "r1" "v1"); inr (Scripted.reply "r2" "v2")] 0 in
  exists out w',
    process_prompt (H := Scripted.env) "base" ["easier"] 1 1 w = Returns out w' /\
    Forall (fun r => original r = "base" \/
                     exists parent, parent ∈ out /\ original r = variant parent) out.
Proof.
  intros w.
  destruct (process_prompt (H := Scripted.env) "base" ["easier"] 1 1 w)
    as [out w'|e] eqn:Hrun; [|by vm_compute in Hrun].
  exists out, w'. split; [done|].
  exact (proj1 (originals_linked (H := Scripted.env) "base" ["easier"] 1 1 w out w' Hrun)).
Defined.

(** The same run: two records, within the bound of 1 + 1 * 1. *)
Lemma result_size_bounded_witness :
  let w := Scripted.mkWorld []
             [inr (Scripted.reply "r1" "v1"); inr (Scripted.reply "r2" "v2")] 0 in
  exists out w',
    process_prompt (H := Scripted.env) "base" ["easier"] 1 1 w = Returns out w' /\
    (length out <= size_bound (Z.to_nat 1 * length ["easier"]) (Z.to_nat 1))%nat.
Proof.
  intros w.
  destruct (process_prompt (H := Scripted.env) "base" ["easier"] 1 1 w)
    as [out w'|e] eqn:Hrun; [|by vm_compute in Hrun].
  exists out, w'. split; [done|].
  exact (result_size_bounded (H := Scripted.env) "base" ["easier"] 1 1 w out w' Hrun).
Defined.

End OrchestratorMore.
